(** * MidasPython: order admission, portfolio reconciliation and the backtest
    market-data clock.

    A shallow embedding of
      - midas/shared/orders.py                          (module [Orders])
      - midas/engine/components/observer/base.py        (the [EventType] enumeration)
      - midas/engine/portfolio/portfolio_server.py      (module [Portfolio])
      - midas/engine/components/order_manager.py        (module [OrderManager])
      - midas/engine/gateways/backtest/data_client.py   (module [DataClient])
    followed by the properties of these components.

    Conventions.  Python numbers ([int], and the [float | int] fields of
    orders and positions) are modelled by [Z].  A raised exception is a value
    [Raise e]; code that mutates an object threads that object explicitly.
    [Subject.notify] is recorded as one entry appended to the subject's list of
    notifications; the observers that receive it are outside the model, and
    so are the logger calls, which touch nothing but the log sink. *)

From stdpp Require Import gmap strings list sorting.
From Stdlib Require Import ZArith Lia.

Local Open Scope Z_scope.

(** ** Exceptions and fallible results *)

Inductive exn : Type :=
| TypeError (msg : string)
| ValueError (msg : string)
| RuntimeError (msg : string)
| KeyError (key : string)
| AttributeError (name : string).

Inductive result (A : Type) : Type :=
| Ok (a : A)
| Raise (e : exn).
Arguments Ok {A} a.
Arguments Raise {A} e.

Definition result_bind {A B : Type} (f : A → result B) (m : result A) : result B :=
  match m with
  | Ok a => f a
  | Raise e => Raise e
  end.

#[global] Instance result_mbind : MBind result := @result_bind.
#[global] Instance result_mret : MRet result := @Ok.

Definition is_Ok {A : Type} (m : result A) : Prop := ∃ a, m = Ok a.
Definition raises {A : Type} (m : result A) : Prop := ∃ e, m = Raise e.

(** Python's [a and b]: [b] is evaluated only when [a] is true. *)
Definition py_and (a b : result bool) : result bool :=
  match a with
  | Ok true => b
  | Ok false => Ok false
  | Raise e => Raise e
  end.

(** A [for] loop whose body mutates an object and may raise: what the
    iterations before the raise did to the object stays done. *)
Fixpoint for_each {S A : Type} (body : A → S → result S) (l : list A) (s : S)
  : result unit * S :=
  match l with
  | [] => (Ok tt, s)
  | a :: l' =>
      match body a s with
      | Ok s' => for_each body l' s'
      | Raise e => (Raise e, s)
      end
  end.

(** A [for] loop that only updates local variables. *)
Fixpoint fold_result {S A : Type} (body : S → A → result S) (l : list A) (s : S)
  : result S :=
  match l with
  | [] => Ok s
  | a :: l' => s' ← body s a; fold_result body l' s'
  end.

(** Values held by the dynamically typed dictionaries of the code. *)
Inductive PyVal : Type :=
| VInt (z : Z)
| VStr (s : string).

#[global] Instance PyVal_eq_dec : EqDecision PyVal.
Proof. solve_decision. Defined.

#[global] Instance PyVal_countable : Countable PyVal.
Proof.
  refine (inj_countable'
            (λ v, match v with VInt z => inl z | VStr s => inr s end)
            (λ x, match x with inl z => VInt z | inr s => VStr s end) _).
  intros []; reflexivity.
Defined.

(** [d[k]] on a dict: KeyError when the key is absent. *)
Definition getitem (d : gmap string PyVal) (k : string) : result PyVal :=
  match d !! k with
  | Some v => Ok v
  | None => Raise (KeyError k)
  end.

(** ** midas/shared/orders.py *)


Module Orders.

(** [Action]: LONG and SHORT open a position (entry), SELL and COVER close
    one (exit). *)
Inductive Action : Type := LONG | COVER | SHORT | SELL.

#[global] Instance Action_eq_dec : EqDecision Action.
Proof. solve_decision. Defined.

(** [Action.to_broker_standard].  The final [else] of the source raises
    ValueError; no member of the enumeration reaches it. *)
Definition to_broker_standard (self : Action) : result string :=
  if bool_decide (self ∈ [LONG; COVER]) then Ok "BUY"
  else if bool_decide (self ∈ [SHORT; SELL]) then Ok "SELL"
  else Raise (ValueError "Invalid action").

Inductive OrderType : Type := MARKET | LIMIT | STOPLOSS.

#[global] Instance OrderType_eq_dec : EqDecision OrderType.
Proof. solve_decision. Defined.

Definition OrderType_value (t : OrderType) : string :=
  match t with
  | MARKET => "MKT"
  | LIMIT => "LMT"
  | STOPLOSS => "STP"
  end.

(** The fields of [ibapi.order.Order] that orders.py assigns.  A price that
    was never assigned is [None]. *)
Record Order : Type := mkOrder {
  action : string;
  orderType : string;
  totalQuantity : Z;
  lmtPrice : option Z;
  auxPrice : option Z
}.

Record BaseOrder : Type := mkBaseOrder { order : Order }.

(** [BaseOrder.__init__].  The three isinstance checks hold by typing. *)
Definition BaseOrder_init (action : Action) (quantity : Z) (order_type : OrderType)
  : result BaseOrder :=
  broker_action ← to_broker_standard action;
  if bool_decide (quantity = 0) then
    Raise (ValueError "'quantity' field must not be zero.")
  else
    Ok (mkBaseOrder
          {| action := broker_action;
             orderType := OrderType_value order_type;
             totalQuantity := Z.abs quantity;
             lmtPrice := None;
             auxPrice := None |}).

(** The [quantity] property: signed by the broker action. *)
Definition quantity (self : BaseOrder) : Z :=
  if bool_decide (action (order self) = "BUY")
  then totalQuantity (order self)
  else - totalQuantity (order self).

Definition MarketOrder (action : Action) (quantity : Z) : result BaseOrder :=
  BaseOrder_init action quantity MARKET.

Definition set_lmtPrice (p : Z) (o : BaseOrder) : BaseOrder :=
  mkBaseOrder
    {| action := Orders.action (order o);
       orderType := orderType (order o);
       totalQuantity := totalQuantity (order o);
       lmtPrice := Some p;
       auxPrice := auxPrice (order o) |}.

Definition set_auxPrice (p : Z) (o : BaseOrder) : BaseOrder :=
  mkBaseOrder
    {| action := Orders.action (order o);
       orderType := orderType (order o);
       totalQuantity := totalQuantity (order o);
       lmtPrice := lmtPrice (order o);
       auxPrice := Some p |}.

(** [LimitOrder.__init__]: the price is checked before the base class runs. *)
Definition LimitOrder (action : Action) (quantity : Z) (limit_price : Z)
  : result BaseOrder :=
  if bool_decide (limit_price ≤ 0) then
    Raise (ValueError "'limit_price' field must be greater than zero.")
  else
    self ← BaseOrder_init action quantity LIMIT;
    Ok (set_lmtPrice limit_price self).

(** [StopLoss.__init__]. *)
Definition StopLoss (action : Action) (quantity : Z) (aux_price : Z)
  : result BaseOrder :=
  if bool_decide (aux_price ≤ 0) then
    Raise (ValueError "'aux_price' field must be greater than zero.")
  else
    self ← BaseOrder_init action quantity STOPLOSS;
    Ok (set_auxPrice aux_price self).

Definition buy_type (a : Action) : Prop := a = LONG ∨ a = COVER.
Definition sell_type (a : Action) : Prop := a = SHORT ∨ a = SELL.

End Orders.

(** ** midas/engine/components/observer/base.py *)

Inductive EventType : Type :=
| MARKET_DATA
| ORDER_BOOK
| SIGNAL
| ORDER_CREATED
| TRADE_EXECUTED
| EOD_EVENT
| POSITION_UPDATE
| ORDER_UPDATE
| ACCOUNT_UPDATE
| EQUITY_VALUE_UPDATE
| RISK_UPDATE
| TRADE_UPDATE
| TRADE_COMMISSION_UPDATE.

#[global] Instance EventType_eq_dec : EqDecision EventType.
Proof. solve_decision. Defined.

(** ** The events of midas/engine/events and what they carry *)

Module Events.

(** The fields of [ibapi.contract.Contract] that identify an instrument. *)
Record Contract : Type := mkContract {
  symbol : string;
  secType : string;
  exchange : string;
  currency : string
}.

(** Modelled from the spec: the class SignalInstruction (midas.signal) is
    outside src.  One leg of a trading decision: instrument reference, order
    kind, action, trade id, leg id, target weight, quantity, and the prices a
    limit or stop order needs. *)
Record SignalInstruction : Type := mkSignalInstruction {
  instrument : PyVal;
  order_type : Orders.OrderType;
  action : Orders.Action;
  trade_id : Z;
  leg_id : Z;
  weight : Z;
  quantity : Z;
  limit_price : option Z;
  aux_price : option Z
}.

Record SignalEvent : Type := mkSignalEvent {
  signal_timestamp : Z;
  instructions : list SignalInstruction
}.

(** The keyword arguments [_set_order] passes to [OrderEvent]. *)
Record OrderEvent : Type := mkOrderEvent {
  order_timestamp : Z;
  order_trade_id : Z;
  order_leg_id : Z;
  order_action : Orders.Action;
  order_contract : Contract;
  order_order : Orders.BaseOrder
}.

(** One bar, as [_set_market_data] builds it. *)
Record BarData : Type := mkBarData {
  ticker : string;
  bar_timestamp : Z;
  open : Z;
  high : Z;
  low : Z;
  close : Z;
  volume : Z
}.

Record MarketEvent : Type := mkMarketEvent {
  market_timestamp : Z;
  market_data : gmap string BarData
}.

(** eod_event.py: [timestamp] is a calendar date, here the number of the day. *)
Record EODEvent : Type := mkEODEvent { eod_timestamp : Z }.

Inductive Event : Type :=
| EvMarket (e : MarketEvent)
| EvSignal (e : SignalEvent)
| EvOrder (e : OrderEvent)
| EvEOD (e : EODEvent).

End Events.

(** ** midas/engine/portfolio/portfolio_server.py *)

Module Portfolio.

(** Modelled from the spec: the class Position (midas.shared.positions) is
    outside src.  A position carries a signed quantity and a cost basis;
    [update_positions] reads [quantity] only. *)
Record Position : Type := mkPosition {
  quantity : Z;
  avg_cost : Z
}.

(** Modelled from the spec: the class Account (midas.shared.account) is
    outside src: a capital and equity snapshot. *)
Record Account : Type := mkAccount {
  account_capital : Z;
  account_equity : Z
}.

(** [ActiveOrder] is a TypedDict, that is a dict at run time: the code reads
    the keys "status", "orderId" and "symbol" and merges with [dict.update]. *)
Abbreviation ActiveOrder := (gmap string PyVal).

(** The attributes of a [PortfolioServer]. [account] is only declared by
    [__init__], hence unset ([None]) until [update_account_details] runs.
    [notified] lists the calls of [self.notify], oldest first. *)
Record PortfolioServer : Type := mkPortfolioServer {
  account : option Account;
  positions : gmap string Position;
  active_orders : gmap PyVal ActiveOrder;
  pending_positions_update : gset PyVal;
  notified : list EventType
}.

(** [__init__]. *)
Definition init : PortfolioServer :=
  {| account := None;
     positions := ∅;
     active_orders := ∅;
     pending_positions_update := ∅;
     notified := [] |}.

Definition set_positions (p : gmap string Position) (self : PortfolioServer)
  : PortfolioServer :=
  {| account := account self;
     positions := p;
     active_orders := active_orders self;
     pending_positions_update := pending_positions_update self;
     notified := notified self |}.

Definition set_active_orders (a : gmap PyVal ActiveOrder) (self : PortfolioServer)
  : PortfolioServer :=
  {| account := account self;
     positions := positions self;
     active_orders := a;
     pending_positions_update := pending_positions_update self;
     notified := notified self |}.

Definition set_pending (s : gset PyVal) (self : PortfolioServer) : PortfolioServer :=
  {| account := account self;
     positions := positions self;
     active_orders := active_orders self;
     pending_positions_update := s;
     notified := notified self |}.

(** [self.notify(event_type)]. *)
Definition notify (event_type : EventType) (self : PortfolioServer) : PortfolioServer :=
  {| account := account self;
     positions := positions self;
     active_orders := active_orders self;
     pending_positions_update := pending_positions_update self;
     notified := notified self ++ [event_type] |}.

(** The [capital] property: [self.account.capital]. *)
Definition capital (self : PortfolioServer) : result Z :=
  match account self with
  | Some a => Ok (account_capital a)
  | None => Raise (AttributeError "account")
  end.

(** [get_active_order_tickers].  The source returns [list(set(...))], a list
    without duplicates in no particular order; its callers only test
    membership, so the model returns the set itself. *)
Definition get_active_order_tickers (self : PortfolioServer) : result (gset PyVal) :=
  active_order_tickers ←
    mapM (λ item : PyVal * ActiveOrder, getitem item.2 "symbol")
         (map_to_list (active_orders self));
  Ok (list_to_set (active_order_tickers ++ elements (pending_positions_update self))).

(** [update_positions]. *)
Definition update_positions (contract : Events.Contract) (new_position : Position)
    (self : PortfolioServer) : PortfolioServer :=
  let symbol := Events.symbol contract in
  let finish (self : PortfolioServer) :=
    notify POSITION_UPDATE
      (set_pending (pending_positions_update self ∖ {[VStr symbol]}) self) in
  if bool_decide (symbol ∈ dom (positions self)) then
    if bool_decide (quantity new_position = 0) then
      finish (set_positions (delete symbol (positions self)) self)
    else
      self
  else
    finish (set_positions (<[symbol := new_position]> (positions self)) self).

Definition status_is (order : ActiveOrder) (s : string) : result bool :=
  v ← getitem order "status"; Ok (bool_decide (v = VStr s)).

Definition status_is_not (order : ActiveOrder) (s : string) : result bool :=
  v ← getitem order "status"; Ok (bool_decide (v ≠ VStr s)).

Definition orderId_active (order : ActiveOrder) (self : PortfolioServer) : result bool :=
  v ← getitem order "orderId"; Ok (bool_decide (v ∈ dom (active_orders self))).

Definition orderId_not_active (order : ActiveOrder) (self : PortfolioServer)
  : result bool :=
  v ← getitem order "orderId"; Ok (bool_decide (v ∉ dom (active_orders self))).

(** [update_orders].  Every subscript that can raise is evaluated before the
    first mutation of its branch, so a raise leaves the server as it was. *)
Definition update_orders (order : ActiveOrder) (self : PortfolioServer)
  : result PortfolioServer :=
  cancelled ← py_and (status_is order "Cancelled") (orderId_active order self);
  self' ←
    (if (cancelled : bool) then
       id ← getitem order "orderId";
       Ok (set_active_orders (delete id (active_orders self)) self)
     else
       filled ← py_and (status_is order "Filled") (orderId_active order self);
       if (filled : bool) then
         symbol ← getitem order "symbol";
         let self1 := set_pending ({[symbol]} ∪ pending_positions_update self) self in
         id ← getitem order "orderId";
         Ok (set_active_orders (delete id (active_orders self1)) self1)
       else
         other ← py_and (status_is_not order "Cancelled") (status_is_not order "Filled");
         if (other : bool) then
           new ← orderId_not_active order self;
           id ← getitem order "orderId";
           if (new : bool) then
             Ok (set_active_orders (<[id := order]> (active_orders self)) self)
           else
             (* self.active_orders[id].update(order): the keys of [order]
                overwrite those of the stored dict *)
             Ok (set_active_orders
                   (alter (λ stored, order ∪ stored) id (active_orders self)) self)
         else
           Ok self);
  Ok (notify ORDER_UPDATE self').

(** [update_account_details].  The source notifies with
    EventType.ACCOUNT_DETAIL_UPDATE, a member of the enumeration of
    midas.engine.observer; base.py names it ACCOUNT_UPDATE. *)
Definition update_account_details (account_details : Account) (self : PortfolioServer)
  : PortfolioServer :=
  notify ACCOUNT_UPDATE
    {| account := Some account_details;
       positions := positions self;
       active_orders := active_orders self;
       pending_positions_update := pending_positions_update self;
       notified := notified self |}.

(** The instruments the admission check looks at: those of the active orders
    and those with a pending position-update marker. *)
Definition blocks_signals (self : PortfolioServer) (x : PyVal) : Prop :=
  (∃ id order, active_orders self !! id = Some order ∧
               order !! "symbol" = Some x)
  ∨ x ∈ pending_positions_update self.

End Portfolio.

(** ** midas/engine/components/order_manager.py *)

Module OrderManager.

Import Events.

Section WithCollaborators.

(** What [OrderBook.retrieve] returns for an instrument id. *)
Variable Price : Type.

(** Modelled from the spec: the class Symbol of the symbol registry is outside
    src.  It provides the instrument id, the contract and the cost function
    [cost(quantity, price) -> capital]. *)
Record Symbol : Type := mkSymbol {
  instrument_id : Z;
  contract : Contract;
  cost : Z → Price → result Z
}.

(** [SignalInstruction.to_order], [OrderBook.retrieve] and the validation that
    [OrderEvent] runs on its fields when constructed are code outside src;
    each may raise. *)
Variable to_order : SignalInstruction → result Orders.BaseOrder.
Variable order_book_retrieve : Z → result Price.
Variable OrderEvent_post_init : OrderEvent → result unit.

(** The attributes of an [OrderExecutionManager], and the calls of its own
    [self.notify], oldest first. *)
Record OrderExecutionManager : Type := mkOrderExecutionManager {
  portfolio_server : Portfolio.PortfolioServer;
  symbols_map : gmap PyVal Symbol;
  notified : list (EventType * OrderEvent)
}.

Definition notify (event_type : EventType) (event : OrderEvent)
    (self : OrderExecutionManager) : OrderExecutionManager :=
  {| portfolio_server := portfolio_server self;
     symbols_map := symbols_map self;
     notified := notified self ++ [(event_type, event)] |}.

(** [_create_order]: ValueError and TypeError are re-raised as RuntimeError,
    anything else propagates. *)
Definition _create_order (trade_instruction : SignalInstruction)
  : result Orders.BaseOrder :=
  match to_order trade_instruction with
  | Ok order => Ok order
  | Raise (ValueError _) | Raise (TypeError _) =>
      Raise (RuntimeError "Failed to create order due to input")
  | Raise e => Raise e
  end.

(** [_set_order]: build the event, then notify; any exception becomes a
    RuntimeError. *)
Definition _set_order (timestamp trade_id leg_id : Z) (action : Orders.Action)
    (contract : Contract) (order : Orders.BaseOrder) (self : OrderExecutionManager)
  : result OrderExecutionManager :=
  let order_event :=
    {| order_timestamp := timestamp;
       order_trade_id := trade_id;
       order_leg_id := leg_id;
       order_action := action;
       order_contract := contract;
       order_order := order |} in
  match OrderEvent_post_init order_event with
  | Ok _ => Ok (notify ORDER_CREATED order_event self)
  | Raise (ValueError _) | Raise (TypeError _) =>
      Raise (RuntimeError "Failed to set OrderEvent due to input")
  | Raise _ => Raise (RuntimeError "Unexpected error setting OrderEvent")
  end.

(** The dict [order_details] of [_handle_signal]. *)
Record OrderDetails : Type := mkOrderDetails {
  details_timestamp : Z;
  details_trade_id : Z;
  details_leg_id : Z;
  details_action : Orders.Action;
  details_contract : Contract;
  details_order : Orders.BaseOrder
}.

(** The cost of one instruction, as the first loop computes it. *)
Definition order_cost (self : OrderExecutionManager) (trade : SignalInstruction)
  : result Z :=
  match symbols_map self !! instrument trade with
  | None => Raise (KeyError "instrument")
  | Some symbol =>
      order ← _create_order trade;
      current_price ← order_book_retrieve (instrument_id symbol);
      cost symbol (Orders.quantity order) current_price
  end.

(** Body of the first loop of [_handle_signal]; the locals are
    [(orders, total_capital_required)]. *)
Definition collect_order (self : OrderExecutionManager) (timestamp : Z)
    (locals : list OrderDetails * Z) (trade : SignalInstruction)
  : result (list OrderDetails * Z) :=
  match symbols_map self !! instrument trade with
  | None => Raise (KeyError "instrument")
  | Some symbol =>
      order ← _create_order trade;
      current_price ← order_book_retrieve (instrument_id symbol);
      order_cost ← cost symbol (Orders.quantity order) current_price;
      let order_details :=
        {| details_timestamp := timestamp;
           details_trade_id := trade_id trade;
           details_leg_id := leg_id trade;
           details_action := action trade;
           details_contract := contract symbol;
           details_order := order |} in
      Ok (locals.1 ++ [order_details], locals.2 + order_cost)
  end.

(** The test of the second loop:
    [order["action"] in [SELL, COVER] or total <= self.portfolio_server.capital];
    the capital is read only when the action is not an exit. *)
Definition admits (self : OrderExecutionManager) (total_capital_required : Z)
    (order : OrderDetails) : result bool :=
  if bool_decide (details_action order ∈ [Orders.SELL; Orders.COVER]) then Ok true
  else
    capital ← Portfolio.capital (portfolio_server self);
    Ok (bool_decide (total_capital_required ≤ capital)).

(** Body of the second loop of [_handle_signal]. *)
Definition dispatch_order (total_capital_required : Z) (order : OrderDetails)
    (self : OrderExecutionManager) : result OrderExecutionManager :=
  admitted ← admits self total_capital_required order;
  if (admitted : bool) then
    _set_order (details_timestamp order) (details_trade_id order)
               (details_leg_id order) (details_action order)
               (details_contract order) (details_order order) self
  else
    Ok self.

(** [_handle_signal]. *)
Definition _handle_signal (timestamp : Z) (trade_instructions : list SignalInstruction)
    (self : OrderExecutionManager) : result unit * OrderExecutionManager :=
  match fold_result (collect_order self timestamp) trade_instructions ([], 0) with
  | Raise e => (Raise e, self)
  | Ok (orders, total_capital_required) =>
      for_each (dispatch_order total_capital_required) orders self
  end.

(** [handle_event].  The argument [subject] is not used by the source. *)
Definition handle_event (event_type : EventType) (event : Event)
    (self : OrderExecutionManager) : result unit * OrderExecutionManager :=
  if bool_decide (event_type = SIGNAL) then
    match event with
    | EvSignal event =>
        let trade_instructions := instructions event in
        let timestamp := signal_timestamp event in
        match Portfolio.get_active_order_tickers (portfolio_server self) with
        | Raise e => (Raise e, self)
        | Ok active_orders_tickers =>
            if existsb (λ trade, bool_decide (instrument trade ∈ active_orders_tickers))
                       trade_instructions
            then (Ok tt, self)
            else _handle_signal timestamp trade_instructions self
        end
    | _ => (Raise (TypeError "'event' must be of type SignalEvent instance."), self)
    end
  else (Ok tt, self).

(** *** Vocabulary of the properties *)

(** The OrderCreated event of an instruction. *)
Definition created_for (timestamp : Z) (self : OrderExecutionManager)
    (trade : SignalInstruction) (event : OrderEvent) : Prop :=
  ∃ symbol order,
    symbols_map self !! instrument trade = Some symbol ∧
    to_order trade = Ok order ∧
    event = {| order_timestamp := timestamp;
               order_trade_id := trade_id trade;
               order_leg_id := leg_id trade;
               order_action := action trade;
               order_contract := contract symbol;
               order_order := order |}.

(** The admission rule: exits always, entries when the batch total fits. *)
Definition admitted (total capital : Z) (trade : SignalInstruction) : Prop :=
  action trade ∈ [Orders.SELL; Orders.COVER] ∨ total ≤ capital.

#[global] Instance admitted_dec (total capital : Z) (trade : SignalInstruction)
  : Decision (admitted total capital trade).
Proof. unfold admitted. apply _. Defined.

Definition sum_costs (costs : list Z) : Z := foldr Z.add 0 costs.

Definition event_of (d : OrderDetails) : OrderEvent :=
  {| order_timestamp := details_timestamp d;
     order_trade_id := details_trade_id d;
     order_leg_id := details_leg_id d;
     order_action := details_action d;
     order_contract := details_contract d;
     order_order := details_order d |}.

(** The cost of the entry instructions alone. *)
Definition entry_cost (self : OrderExecutionManager) (trades : list SignalInstruction)
  : result Z :=
  costs ← mapM (order_cost self)
               (filter (λ trade, action trade ∈ [Orders.LONG; Orders.SHORT]) trades);
  Ok (sum_costs costs).

End WithCollaborators.

Arguments instrument_id {Price} _.
Arguments contract {Price} _.
Arguments cost {Price} _ _ _.
Arguments mkSymbol {Price} _ _ _.
Arguments portfolio_server {Price} _.
Arguments symbols_map {Price} _.
Arguments notified {Price} _.
Arguments mkOrderExecutionManager {Price} _ _ _.

End OrderManager.

(** ** midas/engine/gateways/backtest/data_client.py *)

Module DataClient.

Import Events.

(** One row of the bar-data frame. *)
Record Row : Type := mkRow {
  row_timestamp : Z;
  row_symbol : string;
  row_open : Z;
  row_high : Z;
  row_low : Z;
  row_close : Z;
  row_volume : Z
}.

(** [astype(np.uint64)] on an integer column: reduction modulo 2^64. *)
Definition to_uint64 (z : Z) : Z := z mod 2 ^ 64.

Definition cast_row (r : Row) : Row :=
  {| row_timestamp := to_uint64 (row_timestamp r);
     row_symbol := row_symbol r;
     row_open := row_open r;
     row_high := row_high r;
     row_low := row_low r;
     row_close := row_close r;
     row_volume := to_uint64 (row_volume r) |}.

Definition timestamp_le (r1 r2 : Row) : Prop := row_timestamp r1 ≤ row_timestamp r2.

#[global] Instance timestamp_le_dec : RelDecision timestamp_le.
Proof. intros r1 r2. unfold timestamp_le. apply _. Defined.

(** [_process_bardata]: cast the columns, then sort by timestamp, ascending. *)
Definition _process_bardata (data : list Row) : list Row :=
  merge_sort timestamp_le (cast_row <$> data).

(** [Series.unique()]: the distinct values in order of first appearance. *)
Fixpoint unique_from (seen : list Z) (l : list Z) : list Z :=
  match l with
  | [] => []
  | x :: l' =>
      if bool_decide (x ∈ seen) then unique_from seen l'
      else x :: unique_from (x :: seen) l'
  end.

Definition unique (l : list Z) : list Z := unique_from [] l.

(** The attributes of a [DataClient] that [data_stream] uses. *)
Record Client : Type := mkClient {
  data : list Row;
  unique_timestamps : list Z;
  next_date : option Z;
  current_date_index : nat;
  current_day : option Z
}.

(** [get_data], from the rows the database and the DataProcessor hand over. *)
Definition get_data (response : list Row) : Client :=
  let data := _process_bardata response in
  {| data := data;
     unique_timestamps := unique (row_timestamp <$> data);
     next_date := None;
     current_date_index := 0%nat;
     current_day := None |}.

(** State shared with the other threads: the flag [eod_event_flag]
    (a threading.Event) and the event queue. *)
Record Shared : Type := mkShared {
  eod_event_flag : bool;
  event_queue : list Event
}.

(** What the clock has done so far, oldest first: each [event_queue.put] of an
    EODEvent and each [order_book.update_market_data]. *)
Inductive Effect : Type :=
| PutEOD (e : EODEvent)
| UpdateMarketData (batch : gmap string BarData) (timestamp : Z).

Record World : Type := mkWorld {
  client : Client;
  shared : Shared;
  history : list Effect
}.

(** What the other threads do to the shared state during one
    [eod_event_flag.wait(timeout=0.1)], or between two calls of [data_stream]. *)
Definition Env : Type := Shared → Shared.

(** [__init__] sets the flag; [get_data] loads the data. *)
Definition init (event_queue : list Event) (response : list Row) : World :=
  {| client := get_data response;
     shared := {| eod_event_flag := true; event_queue := event_queue |};
     history := [] |}.

(** [_get_latest_data] and the dict built by [_set_market_data]: a later row
    of the same ticker overwrites an earlier one. *)
Definition latest_batch (data : list Row) (next_date : Z) : gmap string BarData :=
  fold_left
    (λ result_dict row,
       <[row_symbol row :=
           {| ticker := row_symbol row;
              bar_timestamp := row_timestamp row;
              open := row_open row;
              high := row_high row;
              low := row_low row;
              close := row_close row;
              volume := row_volume row |}]> result_dict)
    (filter (λ row, row_timestamp row = next_date) data) ∅.

(** [_set_market_data] hands the batch to the order book. *)
Definition _set_market_data (w : World) : World :=
  match next_date (client w) with
  | None => w
  | Some next_date =>
      {| client := client w;
         shared := shared w;
         history := history w
                      ++ [UpdateMarketData (latest_batch (data (client w)) next_date)
                                           next_date] |}
  end.

(** [_process_eod]. *)
Definition _process_eod (current_day : Z) (w : World) : World :=
  let event := EvEOD {| eod_timestamp := current_day |} in
  {| client := client w;
     shared := {| eod_event_flag := eod_event_flag (shared w);
                  event_queue := event_queue (shared w) ++ [event] |};
     history := history w ++ [PutEOD {| eod_timestamp := current_day |}] |}.

Definition clear_flag (w : World) : World :=
  {| client := client w;
     shared := {| eod_event_flag := false; event_queue := event_queue (shared w) |};
     history := history w |}.

Definition set_next_date (t : Z) (w : World) : World :=
  {| client := {| data := data (client w);
                  unique_timestamps := unique_timestamps (client w);
                  next_date := Some t;
                  current_date_index := current_date_index (client w);
                  current_day := current_day (client w) |};
     shared := shared w;
     history := history w |}.

Definition set_current_day (d : Z) (w : World) : World :=
  {| client := {| data := data (client w);
                  unique_timestamps := unique_timestamps (client w);
                  next_date := next_date (client w);
                  current_date_index := current_date_index (client w);
                  current_day := Some d |};
     shared := shared w;
     history := history w |}.

Definition increment_index (w : World) : World :=
  {| client := {| data := data (client w);
                  unique_timestamps := unique_timestamps (client w);
                  next_date := next_date (client w);
                  current_date_index := S (current_date_index (client w));
                  current_day := current_day (client w) |};
     shared := shared w;
     history := history w |}.

Definition interfere (env : Env) (w : World) : World :=
  {| client := client w;
     shared := env (shared w);
     history := history w |}.

(** How a call of [data_stream] ends under a given schedule of the other
    threads: it returns, or it is still polling when the schedule runs out. *)
Inductive Outcome : Type :=
| Returned (value : bool) (w : World) (rest : list Env)
| Waiting (w : World).

(** The poll loop and what follows it:
      while not flag.is_set():
          flag.wait(timeout=0.1)
          if not queue.empty(): return True
      self._set_market_data(); self.current_date_index += 1; return True
    Each wait consumes one entry of the schedule. *)
Fixpoint poll (waits : list Env) (w : World) : Outcome :=
  if eod_event_flag (shared w) then
    Returned true (increment_index (_set_market_data w)) waits
  else
    match waits with
    | [] => Waiting w
    | env :: waits' =>
        let w' := interfere env w in
        match event_queue (shared w') with
        | _ :: _ => Returned true w' waits'
        | [] => poll waits' w'
        end
    end.

Section WithCalendar.

(** The calendar day of a timestamp: [parser.parse(unix_to_iso(t)).date()]. *)
Variable day_of : Z → Z.

(** The day-boundary step of [data_stream]. *)
Definition day_boundary (next_day : Z) (w : World) : World :=
  match current_day (client w) with
  | None => set_current_day next_day w
  | Some current_day =>
      if bool_decide (next_day ≠ current_day) then
        set_current_day next_day (_process_eod current_day (clear_flag w))
      else w
  end.

(** [data_stream]. *)
Definition data_stream (waits : list Env) (w : World) : Outcome :=
  if bool_decide (length (unique_timestamps (client w))
                    ≤ current_date_index (client w))%nat then
    Returned false w waits
  else
    match unique_timestamps (client w) !! current_date_index (client w) with
    | None => Returned false w waits
    | Some t =>
        let w := set_next_date t w in
        let next_day := day_of t in
        poll waits (day_boundary next_day w)
    end.

(** The driver calls [data_stream] again and again.  Each call comes with what
    the other threads do before it and during its waits.  A call that is
    still polling when its schedule runs out ends the run. *)
Fixpoint stream (calls : list (Env * list Env)) (w : World) : list bool * World :=
  match calls with
  | [] => ([], w)
  | (before, waits) :: calls' =>
      match data_stream waits (interfere before w) with
      | Returned value w' _ =>
          let '(values, w'') := stream calls' w' in (value :: values, w'')
      | Waiting w' => ([], w')
      end
  end.

(** *** Vocabulary of the properties *)

(** What the clock does for the timestamps [timestamps] when the day seen
    before them is [previous]: before each timestamp that opens a new day, the
    end of the previous day; then the batch of the timestamp. *)
Fixpoint schedule_from (data : list Row) (previous : option Z) (timestamps : list Z)
  : list Effect :=
  match timestamps with
  | [] => []
  | t :: rest =>
      match previous with
      | Some d =>
          if bool_decide (day_of t ≠ d) then [PutEOD {| eod_timestamp := d |}] else []
      | None => []
      end ++ UpdateMarketData (latest_batch data t) t
             :: schedule_from data (Some (day_of t)) rest
  end.

(** What is left to do in a world, and the whole timeline of a data set. *)
Definition remaining (w : World) : list Effect :=
  schedule_from (data (client w)) (current_day (client w))
    (drop (current_date_index (client w)) (unique_timestamps (client w))).

Definition timeline (c : Client) : list Effect :=
  schedule_from (data c) None (unique_timestamps c).

(** [w'] continues [w]: same data, the cursor has not moved back, and what was
    done plus what is left to do is the same list of effects. *)
Definition continues (w w' : World) : Prop :=
  data (client w') = data (client w) ∧
  unique_timestamps (client w') = unique_timestamps (client w) ∧
  (current_date_index (client w) ≤ current_date_index (client w'))%nat ∧
  history w' ++ remaining w' = history w ++ remaining w.

(** The clock is about to poll for timestamp [t]: the day boundary of [t] is
    behind it. *)
Definition polling_for (t : Z) (w : World) : Prop :=
  unique_timestamps (client w) !! current_date_index (client w) = Some t ∧
  next_date (client w) = Some t ∧
  current_day (client w) = Some (day_of t).


Definition no_interference : Env := λ shared, shared.


(** An upper bound on the calls a cooperative run still needs before the
    cursor is past the last timestamp: two per timestamp left, one more when
    the timestamp at the cursor opens a new day. *)
Definition calls_left (w : World) : nat :=
  2 * (length (unique_timestamps (client w)) - current_date_index (client w))
  + match unique_timestamps (client w) !! current_date_index (client w),
          current_day (client w) with
    | Some t, Some d => if bool_decide (day_of t ≠ d) then 1 else 0
    | _, _ => 0
    end.

(** The day function never goes back in time. *)
Definition monotone_days : Prop := ∀ t1 t2, t1 ≤ t2 → day_of t1 ≤ day_of t2.



End WithCalendar.

(** The day of a nanosecond timestamp in exact arithmetic (UTC). *)
Definition utc_day (t : Z) : Z := t / 86400000000000.

End DataClient.

(** ** Scenarios used by the examples *)

Module Scenario.

Import Events.

(** An open order for AAPL with id 7, and the two terminal updates for it. *)
Definition order7 (status : string) : gmap string PyVal :=
  <["orderId" := VInt 7]>
    (<["status" := VStr status]>
       (<["symbol" := VStr "AAPL"]> ∅)).

Definition AAPL : Contract :=
  {| symbol := "AAPL"; secType := "STK";
     exchange := "NASDAQ"; currency := "USD" |}.

(** A server that holds 100 AAPL and waits for the position update of a fill. *)
Definition holding_100 : Portfolio.PortfolioServer :=
  {| Portfolio.account := None;
     Portfolio.positions := {[ "AAPL" := Portfolio.mkPosition 100 150 ]};
     Portfolio.active_orders := ∅;
     Portfolio.pending_positions_update := {[ VStr "AAPL" ]};
     Portfolio.notified := [] |}.

Definition MSFT : Contract :=
  {| symbol := "MSFT"; secType := "STK"; exchange := "NASDAQ"; currency := "USD" |}.

(** Modelled from the spec: SignalInstruction.to_order is outside src; it is
    the instruction's own conversion to a concrete order.  Here an instruction
    becomes the order of its kind, and a limit or stop instruction without
    its price is a TypeError. *)
Definition to_order (trade : SignalInstruction) : result Orders.BaseOrder :=
  match order_type trade with
  | Orders.MARKET => Orders.MarketOrder (action trade) (quantity trade)
  | Orders.LIMIT =>
      match limit_price trade with
      | Some p => Orders.LimitOrder (action trade) (quantity trade) p
      | None => Raise (TypeError "'limit_price' field must be of type float or int.")
      end
  | Orders.STOPLOSS =>
      match aux_price trade with
      | Some p => Orders.StopLoss (action trade) (quantity trade) p
      | None => Raise (TypeError "'aux_price' field must be of type float or int.")
      end
  end.

(** Modelled from the spec: Symbol.cost is outside src; it maps a quantity and
    a price to the capital the order requires.  Here an equity: the size of
    the order times the price, for entries and exits alike. *)
Definition equity_cost (quantity price : Z) : result Z := Ok (Z.abs quantity * price).

(** Modelled from the spec: OrderBook.retrieve is outside src; it gives the
    current price of an instrument.  Here every instrument trades at 1. *)
Definition order_book_retrieve (instrument_id : Z) : result Z := Ok 1.

(** Modelled from the spec: the validation of OrderEvent is outside src.  Here
    every event is accepted. *)
Definition OrderEvent_post_init (event : OrderEvent) : result unit := Ok tt.

(** A manager with 100 of capital, no active order and no pending marker. *)
Definition manager : OrderManager.OrderExecutionManager Z :=
  {| OrderManager.portfolio_server :=
       Portfolio.update_account_details
         {| Portfolio.account_capital := 100; Portfolio.account_equity := 100 |}
         Portfolio.init;
     OrderManager.symbols_map :=
       <[VStr "AAPL" := OrderManager.mkSymbol 1 AAPL equity_cost]>
         (<[VStr "MSFT" := OrderManager.mkSymbol 2 MSFT equity_cost]> ∅);
     OrderManager.notified := [] |}.

Definition market (a : Orders.Action) (ticker : string) (leg : Z) (q : Z)
  : SignalInstruction :=
  {| instrument := VStr ticker;
     order_type := Orders.MARKET;
     action := a;
     trade_id := 1;
     leg_id := leg;
     weight := 1;
     quantity := q;
     limit_price := None;
     aux_price := None |}.

(** Enter 60 AAPL and, in the same signal, exit 60 MSFT. *)
Definition long_and_sell : SignalEvent :=
  {| signal_timestamp := 1651500000;
     instructions := [market Orders.LONG "AAPL" 1 60; market Orders.SELL "MSFT" 2 60] |}.

Definition handle_event :=
  OrderManager.handle_event Z to_order order_book_retrieve OrderEvent_post_init.

(** The one event the scenario publishes: the exit. *)
Definition sell_event : OrderEvent :=
  {| order_timestamp := 1651500000;
     order_trade_id := 1;
     order_leg_id := 2;
     order_action := Orders.SELL;
     order_contract := MSFT;
     order_order :=
       Orders.mkBaseOrder (Orders.mkOrder "SELL" "MKT" 60 None None) |}.

(** A server with an open order for AAPL blocks a signal that names AAPL,
    whatever else the signal names. *)
Definition busy_manager : OrderManager.OrderExecutionManager Z :=
  {| OrderManager.portfolio_server :=
       Portfolio.set_active_orders {[ VInt 7 := order7 "Submitted" ]}
         (OrderManager.portfolio_server manager);
     OrderManager.symbols_map := OrderManager.symbols_map manager;
     OrderManager.notified := [] |}.

(** Bars of two days, the later day first: AAPL on day 1, AAPL and MSFT at
    the start of day 0. *)
Definition two_day_rows : list DataClient.Row :=
  [ DataClient.mkRow 86400000000000 "AAPL" 101 103 100 102 5000;
    DataClient.mkRow 0 "AAPL" 100 102 99 101 4000;
    DataClient.mkRow 0 "MSFT" 200 202 199 201 3000 ].

(** The other threads do nothing. *)
Definition idle : DataClient.Env := λ shared, shared.

(** The consumer drains the queue and sets the flag. *)
Definition consumer : DataClient.Env :=
  λ shared, {| DataClient.eod_event_flag := true; DataClient.event_queue := [] |}.

(** Four calls that stream [two_day_rows] to the end: the batch of day 0; the
    day boundary, which returns from the wait because the EODEvent is queued;
    after the consumer has run, the batch of day 1; exhaustion. *)
Definition full_run : list (DataClient.Env * list DataClient.Env) :=
  [ (idle, []); (idle, [idle]); (consumer, []); (idle, []) ].

Definition loaded : DataClient.World := DataClient.init [] two_day_rows.

(** The world after the second call of [full_run]: the clock waits for the
    flag, with the EODEvent of day 0 in the queue. *)
Definition waiting : DataClient.World :=
  (DataClient.stream DataClient.utc_day (take 2 full_run) loaded).2.

Definition finished : DataClient.World :=
  (DataClient.stream DataClient.utc_day full_run loaded).2.


End Scenario.

(** ** midas/engine/components/observer/base.py: the class Subject *)

Module Observer.

(** [auto()] numbers the members of the enumeration from 1. *)
Definition EventType_value (e : EventType) : nat :=
  match e with
  | MARKET_DATA => 1
  | ORDER_BOOK => 2
  | SIGNAL => 3
  | ORDER_CREATED => 4
  | TRADE_EXECUTED => 5
  | EOD_EVENT => 6
  | POSITION_UPDATE => 7
  | ORDER_UPDATE => 8
  | ACCOUNT_UPDATE => 9
  | EQUITY_VALUE_UPDATE => 10
  | RISK_UPDATE => 11
  | TRADE_UPDATE => 12
  | TRADE_COMMISSION_UPDATE => 13
  end%nat.

Definition EventType_of_value (n : nat) : EventType :=
  match n with
  | 1 => MARKET_DATA
  | 2 => ORDER_BOOK
  | 3 => SIGNAL
  | 4 => ORDER_CREATED
  | 5 => TRADE_EXECUTED
  | 6 => EOD_EVENT
  | 7 => POSITION_UPDATE
  | 8 => ORDER_UPDATE
  | 9 => ACCOUNT_UPDATE
  | 10 => EQUITY_VALUE_UPDATE
  | 11 => RISK_UPDATE
  | 12 => TRADE_UPDATE
  | _ => TRADE_COMMISSION_UPDATE
  end%nat.

#[global] Instance EventType_countable : Countable EventType.
Proof.
  refine (inj_countable' EventType_value EventType_of_value _).
  intros []; reflexivity.
Defined.

Section WithObservers.

(** Observers are compared as Python compares objects in [x in list] and
    [list.remove(x)]: by equality. *)
Context {Obs : Type} `{EqDecision Obs}.

(** The dict [self._observers]: event type to the list of its observers. *)
Abbreviation Subject := (gmap EventType (list Obs)).

(** [__init__]. *)
Definition init : Subject := ∅.

(** [attach]. *)
Definition attach (observer : Obs) (event_type : EventType) (self : Subject) : Subject :=
  let self :=
    if bool_decide (event_type ∉ dom self) then <[event_type := []]> self else self in
  alter (λ observers, observers ++ [observer]) event_type self.

(** [list.remove(x)]: drop the first item equal to [x]. *)
Fixpoint list_remove (x : Obs) (l : list Obs) : list Obs :=
  match l with
  | [] => []
  | y :: l' => if bool_decide (y = x) then l' else y :: list_remove x l'
  end.

(** [detach]. *)
Definition detach (observer : Obs) (event_type : EventType) (self : Subject) : Subject :=
  match self !! event_type with
  | Some observers =>
      if bool_decide (observer ∈ observers)
      then <[event_type := list_remove observer observers]> self
      else self
  | None => self
  end.

(** [notify].  An observer's [handle_event] acts on the world [World] outside
    the subject and may raise; the exception leaves the loop. *)
Context {Args World : Type}.
Variable handle_event : Obs → EventType → Args → World → result World.

Definition notify (event_type : EventType) (args : Args) (self : Subject) (world : World)
  : result unit * World :=
  match self !! event_type with
  | Some observers =>
      for_each (λ observer, handle_event observer event_type args) observers world
  | None => (Ok tt, world)
  end.

(** The observers attached to an event type, in attachment order. *)
Definition observers_of (event_type : EventType) (self : Subject) : list Obs :=
  default [] (self !! event_type).

(** How often an observer is attached to an event type. *)
Definition times_attached (observer : Obs) (event_type : EventType) (self : Subject)
  : nat :=
  length (filter (λ o, o = observer) (observers_of event_type self)).

End WithObservers.

End Observer.

(** ** Vocabulary and cases of the further properties *)

Module Cases.

Import Events.

(** A server run through a list of operations, oldest first. *)
Inductive Operation : Type :=
| UpdatePositions (contract : Contract) (new_position : Portfolio.Position)
| UpdateOrders (order : gmap string PyVal)
| UpdateAccount (account_details : Portfolio.Account).

Definition apply_operation (op : Operation) (self : Portfolio.PortfolioServer)
  : result Portfolio.PortfolioServer :=
  match op with
  | UpdatePositions contract new_position =>
      Ok (Portfolio.update_positions contract new_position self)
  | UpdateOrders order => Portfolio.update_orders order self
  | UpdateAccount account_details =>
      Ok (Portfolio.update_account_details account_details self)
  end.

(** The bar [_set_market_data] builds from a row. *)
Definition bar_of_row (row : DataClient.Row) : BarData :=
  {| ticker := DataClient.row_symbol row;
     bar_timestamp := DataClient.row_timestamp row;
     open := DataClient.row_open row;
     high := DataClient.row_high row;
     low := DataClient.row_low row;
     close := DataClient.row_close row;
     volume := DataClient.row_volume row |}.

(** The timestamps of the batches in a history, and the days of its
    EODEvents, oldest first. *)
Definition published_timestamps (h : list DataClient.Effect) : list Z :=
  omap (λ e, match e with
             | DataClient.UpdateMarketData _ t => Some t
             | DataClient.PutEOD _ => None
             end) h.

Definition eod_days (h : list DataClient.Effect) : list Z :=
  omap (λ e, match e with
             | DataClient.PutEOD e => Some (eod_timestamp e)
             | DataClient.UpdateMarketData _ _ => None
             end) h.

(** Three observers, named by numbers. *)
Definition three_observers : gmap EventType (list nat) :=
  Observer.attach 3%nat SIGNAL
    (Observer.attach 2%nat SIGNAL (Observer.attach 1%nat SIGNAL Observer.init)).


(** A server run through operations, stopped by the first exception. *)
Definition run_operations (ops : list Operation) (self : Portfolio.PortfolioServer)
  : result Portfolio.PortfolioServer :=
  fold_result (λ self op, apply_operation op self) ops self.

Definition is_account_update (op : Operation) : Prop :=
  match op with
  | UpdateAccount _ => True
  | _ => False
  end.

#[global] Instance is_account_update_dec op : Decision (is_account_update op).
Proof. destruct op; simpl; apply _. Defined.

(** A zero-quantity position update for the symbol [s]. *)
Definition is_removal_of (s : string) (op : Operation) : Prop :=
  match op with
  | UpdatePositions contract new_position =>
      symbol contract = s ∧ Portfolio.quantity new_position = 0
  | _ => False
  end.

#[global] Instance is_removal_of_dec s op : Decision (is_removal_of s op).
Proof. destruct op; simpl; apply _. Defined.

(** A manager whose portfolio server has no account snapshot yet. *)
Definition unfunded_manager : OrderManager.OrderExecutionManager Z :=
  {| OrderManager.portfolio_server := Portfolio.init;
     OrderManager.symbols_map := OrderManager.symbols_map Scenario.manager;
     OrderManager.notified := [] |}.

(** An OrderEvent validation that rejects leg 2. *)
Definition reject_leg_2 (event : OrderEvent) : result unit :=
  if bool_decide (order_leg_id event = 2) then Raise (ValueError "leg") else Ok tt.

(** What an event copies from its instruction and its signal. *)
Definition carries (timestamp : Z) (trade : SignalInstruction) (event : OrderEvent)
  : Prop :=
  order_timestamp event = timestamp ∧
  order_trade_id event = trade_id trade ∧
  order_leg_id event = leg_id trade ∧
  order_action event = action trade.

(** The order of the effects of the clock: batches by timestamp, EODEvents by
    day, an EODEvent after the batches of its day and of earlier days and
    before the batches of later days. *)
Definition happens_before (day_of : Z → Z) (e1 e2 : DataClient.Effect) : Prop :=
  match e1, e2 with
  | DataClient.UpdateMarketData _ t1, DataClient.UpdateMarketData _ t2 => t1 < t2
  | DataClient.UpdateMarketData _ t, DataClient.PutEOD e => day_of t ≤ eod_timestamp e
  | DataClient.PutEOD e, DataClient.UpdateMarketData _ t => eod_timestamp e < day_of t
  | DataClient.PutEOD e1, DataClient.PutEOD e2 => eod_timestamp e1 < eod_timestamp e2
  end.

(** The consumer has taken the EODEvent from the queue and has not set the
    flag. *)
Definition drain : DataClient.Env :=
  λ shared, {| DataClient.eod_event_flag := DataClient.eod_event_flag shared;
               DataClient.event_queue := [] |}.

Definition stalled : DataClient.World := DataClient.interfere drain Scenario.waiting.

End Cases.

(** * Properties *)

(** ** Results and loops *)

Lemma raises_not_Ok {A : Type} (m : result A) : raises m ↔ ¬ is_Ok m.
Proof.
  unfold raises, is_Ok. destruct m as [a|e]; split.
  - intros [e He]. discriminate.
  - intros H. exfalso. apply H. by exists a.
  - intros _ [a Ha]. discriminate.
  - intros _. by exists e.
Qed.

Lemma bind_Ok_inv {A B : Type} (f : A → result B) (m : result A) (b : B) :
  m ≫= f = Ok b → ∃ a, m = Ok a ∧ f a = Ok b.
Proof. destruct m as [a|e]; simpl; [by exists a | discriminate]. Qed.

Lemma bind_Ok {A B : Type} (f : A → result B) (m : result A) (a : A) :
  m = Ok a → m ≫= f = f a.
Proof. by intros ->. Qed.

Lemma filter_all {A : Type} (P : A → Prop) `{!∀ x, Decision (P x)} (l : list A) :
  (∀ x, x ∈ l → P x) → filter P l = l.
Proof.
  induction l as [|x l IH]; intros Hall; [done|].
  rewrite filter_cons_True by (apply Hall; by left).
  f_equal. apply IH. intros y Hy. apply Hall. by right.
Qed.


(** ** Order construction *)

Section OrderConstruction.

Import Orders.

Lemma to_broker_standard_buy a : buy_type a → to_broker_standard a = Ok "BUY"%string.
Proof. by intros [-> | ->]. Qed.

Lemma to_broker_standard_sell a : sell_type a → to_broker_standard a = Ok "SELL"%string.
Proof. by intros [-> | ->]. Qed.

Lemma buy_or_sell a : buy_type a ∨ sell_type a.
Proof. unfold buy_type, sell_type. destruct a; auto. Qed.


Lemma BaseOrder_init_nonzero a q t :
  q ≠ 0 →
  ∃ b, to_broker_standard a = Ok b ∧
       BaseOrder_init a q t =
         Ok (mkBaseOrder (mkOrder b (OrderType_value t) (Z.abs q) None None)).
Proof.
  intros Hq. unfold BaseOrder_init.
  destruct (buy_or_sell a) as [H | H];
    [rewrite (to_broker_standard_buy a H) | rewrite (to_broker_standard_sell a H)];
    simpl; rewrite bool_decide_eq_false_2 by done; eauto.
Qed.








End OrderConstruction.

(** ** Portfolio server *)

Section PortfolioServerFacts.

Import Portfolio Scenario.

Implicit Types (self : PortfolioServer) (order : ActiveOrder) (id : PyVal).

Lemma getitem_Some (d : gmap string PyVal) k v : d !! k = Some v → getitem d k = Ok v.
Proof. unfold getitem. by intros ->. Qed.

(** Expose every subscript of [update_orders] as a lookup, so that the
    hypotheses on the incoming dict rewrite all of them at once. *)
Ltac unfold_update_orders :=
  unfold update_orders, status_is, status_is_not, orderId_active,
    orderId_not_active, getitem.

(** The branches of [update_orders], one lemma each. *)

Lemma update_orders_cancelled order self id :
  order !! "status"%string = Some (VStr "Cancelled") →
  order !! "orderId"%string = Some id →
  id ∈ dom (active_orders self) →
  update_orders order self
  = Ok (notify ORDER_UPDATE (set_active_orders (delete id (active_orders self)) self)).
Proof.
  intros Hs Hid Hin. unfold_update_orders. rewrite Hs, Hid. simpl.
  by rewrite bool_decide_eq_true_2 by done.
Qed.

Lemma update_orders_filled order self id symbol :
  order !! "status"%string = Some (VStr "Filled") →
  order !! "orderId"%string = Some id →
  order !! "symbol"%string = Some symbol →
  id ∈ dom (active_orders self) →
  update_orders order self
  = Ok (notify ORDER_UPDATE
          (set_active_orders (delete id (active_orders self))
             (set_pending ({[symbol]} ∪ pending_positions_update self) self))).
Proof.
  intros Hs Hid Hsym Hin. unfold_update_orders. rewrite Hs, Hid, Hsym. simpl.
  by rewrite bool_decide_eq_true_2 by done.
Qed.

Lemma update_orders_terminal_unknown order self id s :
  s = "Filled"%string ∨ s = "Cancelled"%string →
  order !! "status"%string = Some (VStr s) →
  order !! "orderId"%string = Some id →
  id ∉ dom (active_orders self) →
  update_orders order self = Ok (notify ORDER_UPDATE self).
Proof.
  intros Hterm Hs Hid Hin. unfold_update_orders. rewrite Hs, Hid.
  destruct Hterm as [-> | ->]; simpl; by rewrite bool_decide_eq_false_2 by done.
Qed.

Lemma update_orders_open order self id v :
  order !! "status"%string = Some v →
  v ≠ VStr "Cancelled" → v ≠ VStr "Filled" →
  order !! "orderId"%string = Some id →
  update_orders order self
  = Ok (notify ORDER_UPDATE
          (set_active_orders
             (if bool_decide (id ∉ dom (active_orders self))
              then <[id := order]> (active_orders self)
              else alter (λ stored, order ∪ stored) id (active_orders self))
             self)).
Proof.
  intros Hs Hc Hf Hid. unfold_update_orders. rewrite Hs, Hid. simpl.
  rewrite (bool_decide_eq_false_2 (v = VStr "Cancelled")) by done.
  rewrite (bool_decide_eq_false_2 (v = VStr "Filled")) by done.
  rewrite (bool_decide_eq_true_2 (v ≠ VStr "Cancelled")) by done.
  rewrite (bool_decide_eq_true_2 (v ≠ VStr "Filled")) by done. simpl.
  by case_bool_decide.
Qed.

(** After an update with a non-terminal status the id is active. *)
Lemma update_orders_open_active order self self' id v :
  order !! "status"%string = Some v →
  v ≠ VStr "Cancelled" → v ≠ VStr "Filled" →
  order !! "orderId"%string = Some id →
  update_orders order self = Ok self' →
  id ∈ dom (active_orders self') ∧
  pending_positions_update self' = pending_positions_update self.
Proof.
  intros Hs Hc Hf Hid. rewrite (update_orders_open _ _ _ _ Hs Hc Hf Hid).
  intros [= <-]. simpl. split; [|done].
  case_bool_decide as Hdom.
  - rewrite dom_insert_L. set_solver.
  - rewrite dom_alter_L. by destruct (decide (id ∈ dom (active_orders self))).
Qed.

(** C5.  Order lifecycle.  Take two updates for the same order id, the first
    with a status other than Filled and Cancelled.  If the second has status
    Filled, both calls return, the id is afterwards absent from the active
    orders, and the pending markers are the earlier ones plus the instrument
    the filled update names.  If the second has status Cancelled, both calls
    return, the id is afterwards absent and the pending markers are as they
    were. *)
Theorem order_lifecycle self id (o1 o2 : ActiveOrder) (v : PyVal) :
  o1 !! "orderId"%string = Some id →
  o2 !! "orderId"%string = Some id →
  o1 !! "status"%string = Some v →
  v ≠ VStr "Cancelled" → v ≠ VStr "Filled" →
  (∀ symbol,
     o2 !! "status"%string = Some (VStr "Filled") →
     o2 !! "symbol"%string = Some symbol →
     ∃ self1 self2,
       update_orders o1 self = Ok self1 ∧ update_orders o2 self1 = Ok self2 ∧
       active_orders self2 !! id = None ∧
       symbol ∈ pending_positions_update self2 ∧
       pending_positions_update self2 = {[symbol]} ∪ pending_positions_update self) ∧
  (o2 !! "status"%string = Some (VStr "Cancelled") →
     ∃ self1 self2,
       update_orders o1 self = Ok self1 ∧ update_orders o2 self1 = Ok self2 ∧
       active_orders self2 !! id = None ∧
       pending_positions_update self2 = pending_positions_update self).
Proof.
  intros Hid1 Hid2 Hs1 Hc Hf.
  pose proof (update_orders_open o1 self id v Hs1 Hc Hf Hid1) as H1.
  destruct (update_orders_open_active _ _ _ _ _ Hs1 Hc Hf Hid1 H1) as [Hact Hpend].
  split.
  - intros symbol Hs2 Hsym. eexists _, _. split; [exact H1|].
    split; [exact (update_orders_filled _ _ _ _ Hs2 Hid2 Hsym Hact)|].
    simpl. split_and!; [apply lookup_delete_eq | set_solver | done].
  - intros Hs2. eexists _, _. split; [exact H1|].
    split; [exact (update_orders_cancelled _ _ _ Hs2 Hid2 Hact)|].
    simpl. split; [apply lookup_delete_eq | done].
Qed.

(** C9.  An update with status Filled or Cancelled for an id that is not
    among the active orders returns, leaves the active orders, the pending
    markers, the positions and the account as they were, and publishes
    exactly one ORDER_UPDATE notification. *)
Theorem terminal_update_of_unknown_order self order id (s : string) :
  s = "Filled"%string ∨ s = "Cancelled"%string →
  order !! "status"%string = Some (VStr s) →
  order !! "orderId"%string = Some id →
  active_orders self !! id = None →
  ∃ self',
    update_orders order self = Ok self' ∧
    active_orders self' = active_orders self ∧
    pending_positions_update self' = pending_positions_update self ∧
    positions self' = positions self ∧
    account self' = account self ∧
    notified self' = notified self ++ [ORDER_UPDATE].
Proof.
  intros Hterm Hs Hid Hnone. exists (notify ORDER_UPDATE self). split; [|done].
  apply (update_orders_terminal_unknown order self id s); try done.
  by apply not_elem_of_dom.
Qed.

Lemma order_lifecycle_witness :
  (∃ self1 self2,
     update_orders (order7 "Submitted") init = Ok self1 ∧
     update_orders (order7 "Filled") self1 = Ok self2 ∧
     active_orders self2 !! VInt 7 = None ∧
     VStr "AAPL" ∈ pending_positions_update self2 ∧
     pending_positions_update self2 = {[VStr "AAPL"]} ∪ pending_positions_update init) ∧
  (∃ self1 self2,
     update_orders (order7 "Submitted") init = Ok self1 ∧
     update_orders (order7 "Cancelled") self1 = Ok self2 ∧
     active_orders self2 !! VInt 7 = None ∧
     pending_positions_update self2 = pending_positions_update init).
Proof.
  split.
  - apply (order_lifecycle init (VInt 7) (order7 "Submitted") (order7 "Filled")
             (VStr "Submitted")); [reflexivity | reflexivity | reflexivity
                                  | discriminate | discriminate
                                  | reflexivity | reflexivity].
  - apply (order_lifecycle init (VInt 7) (order7 "Submitted") (order7 "Cancelled")
             (VStr "Submitted")); [reflexivity | reflexivity | reflexivity
                                  | discriminate | discriminate | reflexivity].
Defined.

Lemma terminal_update_of_unknown_order_witness :
  ∃ self',
    update_orders (order7 "Filled") init = Ok self' ∧
    active_orders self' = active_orders init ∧
    pending_positions_update self' = pending_positions_update init ∧
    positions self' = positions init ∧
    account self' = account init ∧
    notified self' = notified init ++ [ORDER_UPDATE].
Proof.
  apply (terminal_update_of_unknown_order init (order7 "Filled") (VInt 7) "Filled");
    [by left | reflexivity | reflexivity | reflexivity].
Defined.

(** [update_positions], branch by branch. *)

Lemma update_positions_existing_nonzero contract new_position self :
  Events.symbol contract ∈ dom (positions self) →
  quantity new_position ≠ 0 →
  update_positions contract new_position self = self.
Proof.
  intros Hin Hq. unfold update_positions.
  rewrite bool_decide_eq_true_2 by done.
  by rewrite bool_decide_eq_false_2 by done.
Qed.

Lemma update_positions_existing_zero contract new_position self :
  Events.symbol contract ∈ dom (positions self) →
  quantity new_position = 0 →
  update_positions contract new_position self
  = notify POSITION_UPDATE
      (set_pending (pending_positions_update self ∖ {[VStr (Events.symbol contract)]})
         (set_positions (delete (Events.symbol contract) (positions self)) self)).
Proof.
  intros Hin Hq. unfold update_positions.
  rewrite bool_decide_eq_true_2 by done.
  by rewrite bool_decide_eq_true_2 by done.
Qed.

Lemma update_positions_new contract new_position self :
  Events.symbol contract ∉ dom (positions self) →
  update_positions contract new_position self
  = notify POSITION_UPDATE
      (set_pending (pending_positions_update self ∖ {[VStr (Events.symbol contract)]})
         (set_positions (<[Events.symbol contract := new_position]> (positions self))
            self)).
Proof.
  intros Hin. unfold update_positions. by rewrite bool_decide_eq_false_2 by done.
Qed.

(** C3, where the code departs from the replacement it documents.  The server
    holds 100 AAPL and is told the position is now 150: [update_positions]
    returns at once.  The stored position is still the old one, the pending
    marker is still set and nothing was notified. *)
Theorem update_positions_keeps_stale_position :
  let self' := update_positions AAPL {| quantity := 150; avg_cost := 155 |} holding_100 in
  positions self' !! "AAPL"%string = Some {| quantity := 100; avg_cost := 150 |} ∧
  VStr "AAPL" ∈ pending_positions_update self' ∧
  notified self' = [].
Proof.
  rewrite update_positions_existing_nonzero.
  - split_and!; [reflexivity | set_solver | reflexivity].
  - simpl. rewrite dom_singleton_L. set_solver.
  - discriminate.
Qed.

(** C4, where the code lets a zero quantity into the mapping.  On a server
    without positions, [update_positions] with quantity 0 stores the
    zero-quantity position and publishes a notification. *)
Theorem update_positions_stores_zero_quantity :
  let self' := update_positions AAPL {| quantity := 0; avg_cost := 0 |} init in
  positions self' !! "AAPL"%string = Some {| quantity := 0; avg_cost := 0 |} ∧
  notified self' = [POSITION_UPDATE].
Proof.
  rewrite update_positions_new.
  - split; [apply lookup_insert_eq | reflexivity].
  - simpl. set_solver.
Qed.

(** [get_active_order_tickers]. *)

Lemma mapM_result_Ok {A B : Type} (f : A → result B) (l : list A) (ys : list B) :
  mapM f l = Ok ys ↔ Forall2 (λ x y, f x = Ok y) l ys.
Proof.
  revert ys. induction l as [|x l IH]; intros ys; simpl.
  - split; [intros [= <-]; constructor | by inversion 1].
  - split.
    + intros H. apply bind_Ok_inv in H as (y & Hy & H).
      apply bind_Ok_inv in H as (k & Hk & [= <-]).
      constructor; [done | by apply IH].
    + inversion 1 as [|? y ? k Hy Hk]; subst.
      apply IH in Hk. cbn. rewrite Hy. cbn. by rewrite Hk.
Qed.

Lemma get_active_order_tickers_spec self tickers :
  get_active_order_tickers self = Ok tickers →
  ∀ x, x ∈ tickers ↔ blocks_signals self x.
Proof.
  unfold get_active_order_tickers, blocks_signals. intros H x.
  apply bind_Ok_inv in H as (syms & Hsyms & [= <-]).
  apply mapM_result_Ok in Hsyms.
  rewrite elem_of_list_to_set, elem_of_app, elem_of_elements.
  apply or_iff_compat_r. split.
  - intros Hx. apply list_elem_of_lookup in Hx as [i Hi].
    destruct (Forall2_lookup_r _ _ _ _ _ Hsyms Hi) as ([id order] & Hitem & Hget).
    exists id, order. split.
    + apply elem_of_map_to_list. apply list_elem_of_lookup. by exists i.
    + simpl in Hget. unfold getitem in Hget.
      destruct (order !! "symbol"%string); by inversion Hget.
  - intros (id & order & Hlook & Hsym).
    apply elem_of_map_to_list, list_elem_of_lookup in Hlook as [i Hi].
    destruct (Forall2_lookup_l _ _ _ _ _ Hsyms Hi) as (y & Hy & Hget).
    simpl in Hget. rewrite (getitem_Some _ _ _ Hsym) in Hget. injection Hget as <-.
    apply list_elem_of_lookup. by exists i.
Qed.

(** The query returns as soon as every active order carries its symbol. *)
Lemma get_active_order_tickers_total self :
  (∀ id order, active_orders self !! id = Some order →
               is_Some (order !! "symbol"%string)) →
  is_Ok (get_active_order_tickers self).
Proof.
  intros Hsym. unfold get_active_order_tickers.
  assert (∃ ys, mapM (λ item : PyVal * ActiveOrder, getitem item.2 "symbol")
                     (map_to_list (active_orders self)) = Ok ys) as [ys Hys].
  { assert (Forall (λ item : PyVal * ActiveOrder, is_Some (item.2 !! "symbol"%string))
                   (map_to_list (active_orders self))) as Hall.
    { apply Forall_forall. intros [id order] Hin.
      apply elem_of_map_to_list in Hin. by eapply Hsym. }
    induction Hall as [|[id order] l [v Hv] _ [ys IH]]; [by exists []|].
    simpl in Hv. exists (v :: ys). cbn. rewrite (getitem_Some _ _ _ Hv). cbn.
    by rewrite IH. }
  rewrite Hys. by eexists.
Qed.

End PortfolioServerFacts.

(** ** Order execution manager *)

Section OrderManagerFacts.

Import Events OrderManager.

Context {Price : Type}.
Variable to_order : SignalInstruction → result Orders.BaseOrder.
Variable order_book_retrieve : Z → result Price.
Variable OrderEvent_post_init : OrderEvent → result unit.

Abbreviation OEM := (OrderExecutionManager Price).
Abbreviation order_cost := (order_cost Price to_order order_book_retrieve).
Abbreviation collect_order := (collect_order Price to_order order_book_retrieve).
Abbreviation dispatch_order := (dispatch_order Price OrderEvent_post_init).
Abbreviation _handle_signal :=
  (_handle_signal Price to_order order_book_retrieve OrderEvent_post_init).
Abbreviation handle_event :=
  (handle_event Price to_order order_book_retrieve OrderEvent_post_init).
Abbreviation created_for := (created_for Price to_order).
Abbreviation entry_cost := (entry_cost Price to_order order_book_retrieve).

Implicit Types (self : OEM) (trade : SignalInstruction) (d : OrderDetails).
Implicit Types (trades : list SignalInstruction).

Lemma _create_order_Ok trade order :
  _create_order to_order trade = Ok order ↔ to_order trade = Ok order.
Proof.
  unfold _create_order. destruct (to_order trade) as [o|[]]; split; congruence.
Qed.

Lemma order_cost_Ok self trade c :
  order_cost self trade = Ok c →
  ∃ symbol order current_price,
    symbols_map self !! instrument trade = Some symbol ∧
    to_order trade = Ok order ∧
    order_book_retrieve (instrument_id symbol) = Ok current_price ∧
    cost symbol (Orders.quantity order) current_price = Ok c.
Proof.
  unfold OrderManager.order_cost.
  destruct (symbols_map self !! instrument trade) as [symbol|]; [|discriminate].
  intros H. apply bind_Ok_inv in H as (order & Ho & H).
  apply bind_Ok_inv in H as (p & Hp & H).
  exists symbol, order, p. by rewrite <- _create_order_Ok.
Qed.

Lemma collect_order_Ok self timestamp locals trade c :
  order_cost self trade = Ok c →
  ∃ d,
    collect_order self timestamp locals trade = Ok (locals.1 ++ [d], locals.2 + c) ∧
    created_for timestamp self trade (event_of d) ∧
    details_action d = action trade.
Proof.
  intros Hc.
  destruct (order_cost_Ok _ _ _ Hc) as (symbol & order & p & Hsym & Ho & Hp & Hcost).
  unfold OrderManager.collect_order. rewrite Hsym.
  rewrite (proj2 (_create_order_Ok trade order) Ho). cbn.
  rewrite Hp. cbn. rewrite Hcost. cbn.
  eexists. split; [reflexivity|]. split; [|done]. by exists symbol, order.
Qed.

(** First loop: when every instruction has a cost, the loop returns one
    entry per instruction and the sum of the costs. *)
Lemma collect_orders_Ok self timestamp trades costs orders0 total0 :
  Forall2 (λ trade c, order_cost self trade = Ok c) trades costs →
  ∃ orders,
    fold_result (collect_order self timestamp) trades (orders0, total0)
    = Ok (orders0 ++ orders, total0 + sum_costs costs) ∧
    Forall2 (λ trade d, created_for timestamp self trade (event_of d)
                        ∧ details_action d = action trade) trades orders.
Proof.
  intros Hcosts. revert orders0 total0.
  induction Hcosts as [|trade c trades costs Hc _ IH]; intros orders0 total0.
  - exists []. simpl. split; [|constructor].
    by rewrite app_nil_r, Z.add_0_r.
  - destruct (collect_order_Ok self timestamp (orders0, total0) trade c Hc)
      as (d & Hd & Hev & Hact).
    simpl. rewrite Hd. cbn.
    destruct (IH (orders0 ++ [d]) (total0 + c)) as (orders & -> & Hall).
    exists (d :: orders). split.
    + f_equal. f_equal; [by rewrite <- app_assoc | lia].
    + by constructor.
Qed.

Lemma notify_portfolio_server ev (e : OrderEvent) self :
  portfolio_server (notify Price ev e self) = portfolio_server self.
Proof. done. Qed.

Lemma admits_eq self total capital d :
  Portfolio.capital (portfolio_server self) = Ok capital →
  admits Price self total d
  = Ok (bool_decide (details_action d ∈ [Orders.SELL; Orders.COVER] ∨ total ≤ capital)).
Proof.
  intros Hcap. unfold admits. rewrite Hcap. cbn.
  repeat case_bool_decide; try done; tauto.
Qed.

Lemma dispatch_order_admitted self total d :
  admits Price self total d = Ok true →
  OrderEvent_post_init (event_of d) = Ok tt →
  dispatch_order total d self = Ok (notify Price ORDER_CREATED (event_of d) self).
Proof.
  intros Hadm Hpost. unfold OrderManager.dispatch_order. rewrite Hadm. cbn.
  unfold _set_order, event_of in *. by rewrite Hpost.
Qed.

Lemma dispatch_order_skipped self total d :
  admits Price self total d = Ok false →
  dispatch_order total d self = Ok self.
Proof. intros Hadm. unfold OrderManager.dispatch_order. by rewrite Hadm. Qed.

(** Second loop. *)
Lemma dispatch_orders_Ok timestamp (self0 : OEM) total capital trades orders :
  Portfolio.capital (portfolio_server self0) = Ok capital →
  (∀ trade event, trade ∈ trades → created_for timestamp self0 trade event →
                  OrderEvent_post_init event = Ok tt) →
  Forall2 (λ trade d, created_for timestamp self0 trade (event_of d)
                      ∧ details_action d = action trade) trades orders →
  ∀ self,
    portfolio_server self = portfolio_server self0 →
    ∃ events,
      Forall2 (created_for timestamp self0) (filter (admitted total capital) trades) events ∧
      for_each (dispatch_order total) orders self
      = (Ok tt, {| portfolio_server := portfolio_server self;
                   symbols_map := symbols_map self;
                   notified := notified self ++ (pair ORDER_CREATED <$> events) |}).
Proof.
  intros Hcap Hpost Hall.
  induction Hall as [|trade d trades orders [Hev Hact] _ IH]; intros self Hps.
  - exists []. simpl. split; [constructor|]. rewrite app_nil_r. by destruct self.
  - assert (∀ trade' event, trade' ∈ trades → created_for timestamp self0 trade' event →
                            OrderEvent_post_init event = Ok tt) as Hpost'.
    { intros trade' event Hin. apply Hpost. by right. }
    specialize (IH Hpost').
    assert (Portfolio.capital (portfolio_server self) = Ok capital) as Hcap'
      by (by rewrite Hps).
    pose proof (admits_eq self total capital d Hcap') as Hadmits.
    rewrite Hact in Hadmits. fold (admitted total capital trade) in Hadmits.
    simpl. rewrite filter_cons.
    destruct (decide (admitted total capital trade)) as [Hadm | Hadm].
    + rewrite bool_decide_eq_true_2 in Hadmits by done.
      rewrite (dispatch_order_admitted _ _ _ Hadmits); [|apply (Hpost trade); [by left|done]].
      destruct (IH (notify Price ORDER_CREATED (event_of d) self)) as (events & Hevents & ->);
        [done|].
      exists (event_of d :: events). split; [by constructor|].
      simpl. by rewrite <- app_assoc.
    + rewrite bool_decide_eq_false_2 in Hadmits by done.
      rewrite (dispatch_order_skipped _ _ _ Hadmits).
      destruct (IH self Hps) as (events & Hevents & ->). by exists events.
Qed.

Lemma filter_admitted_all total capital trades :
  total ≤ capital → filter (admitted total capital) trades = trades.
Proof. intros Hle. apply filter_all. intros trade _. by right. Qed.

Lemma filter_admitted_exits total capital trades :
  capital < total →
  filter (admitted total capital) trades
  = filter (λ trade, action trade ∈ [Orders.SELL; Orders.COVER]) trades.
Proof.
  intros Hlt. apply list_filter_iff. intros trade. unfold admitted. split; [|tauto].
  intros [? | ?]; [done | lia].
Qed.

Lemma _handle_signal_Ok self timestamp trades costs capital :
  Forall2 (λ trade c, order_cost self trade = Ok c) trades costs →
  Portfolio.capital (portfolio_server self) = Ok capital →
  (∀ trade event, trade ∈ trades → created_for timestamp self trade event →
                  OrderEvent_post_init event = Ok tt) →
  ∃ events,
    Forall2 (created_for timestamp self)
            (filter (admitted (sum_costs costs) capital) trades) events ∧
    _handle_signal timestamp trades self
    = (Ok tt, {| portfolio_server := portfolio_server self;
                 symbols_map := symbols_map self;
                 notified := notified self ++ (pair ORDER_CREATED <$> events) |}).
Proof.
  intros Hcosts Hcap Hpost. unfold OrderManager._handle_signal.
  destruct (collect_orders_Ok self timestamp trades costs [] 0 Hcosts)
    as (orders & -> & Hall).
  rewrite app_nil_l, Z.add_0_l.
  by apply (dispatch_orders_Ok timestamp self _ capital trades orders Hcap Hpost Hall).
Qed.

Lemma conflict_check_passes (tickers : gset PyVal) trades :
  (∀ trade, trade ∈ trades → instrument trade ∉ tickers) →
  existsb (λ trade, bool_decide (instrument trade ∈ tickers)) trades = false.
Proof.
  intros Hfree. induction trades as [|trade trades IH]; [done|]. simpl.
  rewrite bool_decide_eq_false_2 by (apply Hfree; by left).
  apply IH. intros trade' Hin. apply Hfree. by right.
Qed.

Lemma conflict_check_fails (tickers : gset PyVal) trades trade :
  trade ∈ trades → instrument trade ∈ tickers →
  existsb (λ trade, bool_decide (instrument trade ∈ tickers)) trades = true.
Proof.
  intros Hin Hconflict. apply existsb_exists. exists trade.
  split; [by apply list_elem_of_In | by apply bool_decide_eq_true_2].
Qed.

(** C1, as the code has it.  Take a signal whose instruments pass the
    conflict check, let C be the capital required by the whole batch, the sum
    of the costs of all its instructions, exits included, and K the capital of
    the portfolio server.  When every OrderCreated event can be built, the
    handler returns and has published, in order, one OrderCreated event for
    each instruction that is an exit (SELL, COVER) or for which C ≤ K.  So if
    C ≤ K every instruction of the signal is admitted, and if C > K the exits
    are admitted and no entry is; the same C is used for every instruction. *)
Theorem admission_by_batch_total self (event : SignalEvent) tickers costs capital :
  Portfolio.get_active_order_tickers (portfolio_server self) = Ok tickers →
  (∀ trade, trade ∈ instructions event → instrument trade ∉ tickers) →
  Forall2 (λ trade c, order_cost self trade = Ok c) (instructions event) costs →
  Portfolio.capital (portfolio_server self) = Ok capital →
  (∀ trade ev, trade ∈ instructions event →
               created_for (signal_timestamp event) self trade ev →
               OrderEvent_post_init ev = Ok tt) →
  ∃ events self',
    handle_event SIGNAL (EvSignal event) self = (Ok tt, self') ∧
    portfolio_server self' = portfolio_server self ∧
    notified self' = notified self ++ (pair ORDER_CREATED <$> events) ∧
    Forall2 (created_for (signal_timestamp event) self)
            (filter (admitted (sum_costs costs) capital) (instructions event)) events ∧
    (sum_costs costs ≤ capital →
       Forall2 (created_for (signal_timestamp event) self) (instructions event) events) ∧
    (capital < sum_costs costs →
       Forall2 (created_for (signal_timestamp event) self)
               (filter (λ trade, action trade ∈ [Orders.SELL; Orders.COVER])
                       (instructions event)) events).
Proof.
  intros Htickers Hfree Hcosts Hcap Hpost.
  destruct (_handle_signal_Ok self (signal_timestamp event) (instructions event)
              costs capital Hcosts Hcap Hpost) as (events & Hevents & Hrun).
  exists events. eexists. unfold OrderManager.handle_event.
  rewrite bool_decide_eq_true_2 by done. rewrite Htickers.
  rewrite (conflict_check_passes tickers _ Hfree). split; [exact Hrun|].
  simpl. split_and!; [done | done | done | |].
  - intros Hle. by rewrite filter_admitted_all in Hevents.
  - intros Hlt. by rewrite filter_admitted_exits in Hevents.
Qed.

(** C2.  When the portfolio server's query returns the set [tickers], that
    set holds exactly the instruments of the active orders and the instruments
    with a pending position-update marker; and a signal with an instruction
    whose instrument is in that set is dropped: the handler returns without
    raising, and the manager (its portfolio server and its published events)
    is as it was. *)
Theorem conflicting_signal_is_dropped self tickers :
  Portfolio.get_active_order_tickers (portfolio_server self) = Ok tickers →
  (∀ x, x ∈ tickers ↔ Portfolio.blocks_signals (portfolio_server self) x) ∧
  (∀ (event : SignalEvent) trade,
     trade ∈ instructions event → instrument trade ∈ tickers →
     handle_event SIGNAL (EvSignal event) self = (Ok tt, self)).
Proof.
  intros Htickers. split; [by apply get_active_order_tickers_spec|].
  intros event trade Hin Hconflict. unfold OrderManager.handle_event.
  rewrite bool_decide_eq_true_2 by done. rewrite Htickers.
  by rewrite (conflict_check_fails tickers _ trade Hin Hconflict).
Qed.

End OrderManagerFacts.

(** *** The scenario: 100 of capital, enter 60 AAPL and exit 60 MSFT *)

Section OrderManagerScenario.

Import Events OrderManager Scenario.

Lemma scenario_tickers :
  Portfolio.get_active_order_tickers (portfolio_server manager) = Ok ∅.
Proof. reflexivity. Qed.

Lemma scenario_costs :
  Forall2 (λ trade c, order_cost Z to_order order_book_retrieve manager trade = Ok c)
          (instructions long_and_sell) [60; 60].
Proof. repeat constructor. Qed.

Lemma scenario_run :
  Scenario.handle_event SIGNAL (EvSignal long_and_sell) manager
  = (Ok tt, {| portfolio_server := portfolio_server manager;
               symbols_map := symbols_map manager;
               notified := [(ORDER_CREATED, sell_event)] |}).
Proof. vm_compute. reflexivity. Qed.

(** C1 as stated fails.  The entry instruction of the scenario costs 60 and
    the capital is 100, so the total entry cost fits; the signal passes the
    conflict check and the handler returns; yet the only OrderCreated event
    published is the one of the exit, because the batch total 120 exceeds
    100. *)
Lemma admission_by_entry_cost_fails :
  entry_cost Z to_order order_book_retrieve manager (instructions long_and_sell) = Ok 60 ∧
  Portfolio.capital (portfolio_server manager) = Ok 100 ∧
  60 ≤ 100 ∧
  Portfolio.get_active_order_tickers (portfolio_server manager) = Ok ∅ ∧
  ∃ self',
    Scenario.handle_event SIGNAL (EvSignal long_and_sell) manager = (Ok tt, self') ∧
    (order_action ∘ snd) <$> notified self' = [Orders.SELL].
Proof.
  split_and!; [reflexivity | reflexivity | lia | exact scenario_tickers |].
  eexists. split; [exact scenario_run | reflexivity].
Qed.

Lemma admission_by_batch_total_witness :
  ∃ events self',
    Scenario.handle_event SIGNAL (EvSignal long_and_sell) manager = (Ok tt, self') ∧
    portfolio_server self' = portfolio_server manager ∧
    notified self' = notified manager ++ (pair ORDER_CREATED <$> events) ∧
    Forall2 (created_for Z to_order 1651500000 manager)
            (filter (admitted (sum_costs [60; 60]) 100) (instructions long_and_sell))
            events ∧
    (sum_costs [60; 60] ≤ 100 →
       Forall2 (created_for Z to_order 1651500000 manager)
               (instructions long_and_sell) events) ∧
    (100 < sum_costs [60; 60] →
       Forall2 (created_for Z to_order 1651500000 manager)
               (filter (λ trade, action trade ∈ [Orders.SELL; Orders.COVER])
                       (instructions long_and_sell)) events).
Proof.
  apply (admission_by_batch_total to_order order_book_retrieve OrderEvent_post_init
           manager long_and_sell ∅ [60; 60] 100).
  - reflexivity.
  - intros trade _. apply not_elem_of_empty.
  - repeat constructor.
  - reflexivity.
  - intros trade ev _ _. reflexivity.
Defined.

Lemma conflicting_signal_is_dropped_witness :
  (∀ x, x ∈ ({[ VStr "AAPL" ]} : gset PyVal)
        ↔ Portfolio.blocks_signals (portfolio_server busy_manager) x) ∧
  Scenario.handle_event SIGNAL (EvSignal long_and_sell) busy_manager
  = (Ok tt, busy_manager).
Proof.
  destruct (conflicting_signal_is_dropped to_order order_book_retrieve
              OrderEvent_post_init busy_manager {[ VStr "AAPL" ]}) as [Hset Hdrop].
  - reflexivity.
  - split; [exact Hset|].
    apply (Hdrop long_and_sell (market Orders.LONG "AAPL" 1 60)).
    + by left.
    + by apply elem_of_singleton.
Defined.

End OrderManagerScenario.

(** ** Market data clock *)

Section DataClientFacts.

Import Events DataClient.

Variable day_of : Z → Z.

Abbreviation data_stream := (data_stream day_of).
Abbreviation stream := (stream day_of).
Abbreviation remaining := (remaining day_of).
Abbreviation schedule_from := (schedule_from day_of).
Abbreviation timeline := (timeline day_of).
Abbreviation continues := (continues day_of).
Abbreviation polling_for := (polling_for day_of).
Abbreviation calls_left := (calls_left day_of).

Implicit Types (w : World) (env : Env) (waits : list Env) (t d : Z).

Lemma continues_refl w : continues w w.
Proof. by repeat split. Qed.

Lemma continues_trans w1 w2 w3 : continues w1 w2 → continues w2 w3 → continues w1 w3.
Proof.
  intros (Hd1 & Hu1 & Hi1 & Hh1) (Hd2 & Hu2 & Hi2 & Hh2).
  split_and!; [congruence | congruence | lia | congruence].
Qed.

Lemma continues_interfere env w : continues w (interfere env w).
Proof. by repeat split. Qed.

Lemma remaining_lookup w t :
  unique_timestamps (client w) !! current_date_index (client w) = Some t →
  remaining w
  = schedule_from (data (client w)) (current_day (client w))
      (t :: drop (S (current_date_index (client w))) (unique_timestamps (client w))).
Proof. intros Ht. unfold DataClient.remaining. by rewrite (drop_S _ _ _ Ht). Qed.

Lemma day_boundary_continues w t :
  unique_timestamps (client w) !! current_date_index (client w) = Some t →
  continues w (day_boundary (day_of t) (set_next_date t w)) ∧
  polling_for t (day_boundary (day_of t) (set_next_date t w)).
Proof.
  intros Ht. unfold DataClient.day_boundary, continues, polling_for. simpl.
  destruct (current_day (client w)) as [d|] eqn:Hday.
  - case_bool_decide as Hne; simpl.
    + split_and!; try done.
      rewrite (remaining_lookup w t Ht), Hday.
      unfold DataClient.remaining. simpl. rewrite (drop_S _ _ _ Ht). simpl.
      rewrite (bool_decide_eq_true_2 (day_of t ≠ d)) by done.
      rewrite (bool_decide_eq_false_2 (day_of t ≠ day_of t)) by (intros H; by apply H).
      by rewrite <- app_assoc.
    + subst d. by split_and!.
  - split_and!; try done.
    rewrite (remaining_lookup w t Ht), Hday.
    unfold DataClient.remaining. simpl. rewrite (drop_S _ _ _ Ht). simpl.
    by rewrite bool_decide_eq_false_2 by (intros H; by apply H).
Qed.

Lemma polling_for_interfere t env w : polling_for t w → polling_for t (interfere env w).
Proof. done. Qed.

(** Publishing the batch of [t] and moving the cursor. *)
Lemma publish_continues w t :
  polling_for t w → continues w (increment_index (_set_market_data w)).
Proof.
  intros (Ht & Hnext & Hday). unfold continues, _set_market_data. rewrite Hnext. simpl.
  split_and!; [done | done | lia |].
  rewrite (remaining_lookup w t Ht), Hday. unfold DataClient.remaining. simpl.
  rewrite Hday. rewrite bool_decide_eq_false_2 by (intros H; by apply H).
  simpl. by rewrite <- app_assoc.
Qed.

(** Whatever the other threads do, a poll continues the world it started in. *)
Lemma poll_continues waits w t :
  polling_for t w →
  match poll waits w with
  | Returned value w' _ => value = true ∧ continues w w'
  | Waiting w' => continues w w'
  end.
Proof.
  revert w. induction waits as [|env waits IH]; intros w Hpoll; simpl.
  - destruct (eod_event_flag (shared w)).
    + split; [done | by apply (publish_continues w t)].
    + apply continues_refl.
  - destruct (eod_event_flag (shared w)).
    + split; [done | by apply (publish_continues w t)].
    + destruct (event_queue (env (shared w))) as [|e q] eqn:Hq.
      * specialize (IH (interfere env w) (polling_for_interfere t env w Hpoll)).
        destruct (poll waits (interfere env w)) as [value w' rest | w'].
        -- destruct IH as [-> IH]. split; [done|].
           by apply (continues_trans _ (interfere env w)); [apply continues_interfere|].
        -- by apply (continues_trans _ (interfere env w)); [apply continues_interfere|].
      * split; [done | apply continues_interfere].
Qed.

(** One call of [data_stream]: it returns false exactly when the cursor is
    past the last timestamp, and then changes nothing. *)
Lemma data_stream_exhausted waits w :
  (length (unique_timestamps (client w)) ≤ current_date_index (client w))%nat →
  data_stream waits w = Returned false w waits.
Proof.
  intros Hlen. unfold DataClient.data_stream. by rewrite bool_decide_eq_true_2.
Qed.

Lemma data_stream_continues waits w :
  match data_stream waits w with
  | Returned value w' _ =>
      continues w w' ∧
      (value = false →
       w' = w ∧
       (length (unique_timestamps (client w)) ≤ current_date_index (client w))%nat)
  | Waiting w' => continues w w'
  end.
Proof.
  unfold DataClient.data_stream. case_bool_decide as Hlen.
  - split; [apply continues_refl | done].
  - destruct (unique_timestamps (client w) !! current_date_index (client w))
      as [t|] eqn:Ht.
    + destruct (day_boundary_continues w t Ht) as [Hcont Hpoll].
      pose proof (poll_continues waits _ t Hpoll) as H.
      destruct (poll waits _) as [value w' rest | w'].
      * destruct H as [-> H]. split; [by apply (continues_trans _ _ _ Hcont)|done].
      * by apply (continues_trans _ _ _ Hcont).
    + apply lookup_ge_None in Ht. lia.
Qed.

(** A run of calls. *)
Lemma stream_continues calls w :
  continues w (stream calls w).2 ∧
  (false ∈ (stream calls w).1 →
   (length (unique_timestamps (client w))
    ≤ current_date_index (client (stream calls w).2))%nat).
Proof.
  revert w. induction calls as [|[before waits] calls IH]; intros w; simpl.
  - split; [apply continues_refl | by intros ?%elem_of_nil].
  - pose proof (data_stream_continues waits (interfere before w)) as H.
    destruct (data_stream waits (interfere before w)) as [value w' rest | w'].
    + destruct H as [Hcont Hfalse]. destruct (IH w') as [IHc IHf].
      destruct (stream calls w') as [values w''] eqn:Hrun. simpl in *.
      assert (continues w w') as Hww'
        by (by apply (continues_trans _ (interfere before w));
              [apply continues_interfere|]).
      split; [by apply (continues_trans _ w')|].
      intros [Heq | Hin]%elem_of_cons.
      * destruct (Hfalse (eq_sym Heq)) as [-> Hlen]. simpl in Hlen.
        destruct IHc as (_ & _ & Hidx & _). simpl in Hidx. lia.
      * destruct Hww' as (_ & Hu & _). rewrite <- Hu. by apply IHf.
    + simpl. split; [|by intros ?%elem_of_nil].
      by apply (continues_trans _ (interfere before w)); [apply continues_interfere|].
Qed.

(** *** The timestamps [get_data] stores *)

#[local] Instance timestamp_le_trans : Transitive timestamp_le.
Proof. unfold timestamp_le. intros r1 r2 r3. lia. Qed.

#[local] Instance timestamp_le_total : Total timestamp_le.
Proof. unfold timestamp_le. intros r1 r2. lia. Qed.

Lemma unique_from_elem seen l x : x ∈ unique_from seen l ↔ x ∈ l ∧ x ∉ seen.
Proof.
  revert seen. induction l as [|y l IH]; intros seen; simpl.
  - split; [by intros ?%elem_of_nil | by intros [?%elem_of_nil _]].
  - case_bool_decide as Hy.
    + rewrite IH, elem_of_cons. split; [tauto|].
      intros [[-> | Hx] Hseen]; [done | tauto].
    + rewrite !elem_of_cons, IH, not_elem_of_cons.
      destruct (decide (x = y)) as [-> | Hne]; tauto.
Qed.

Lemma unique_from_sorted seen l :
  StronglySorted Z.le l → StronglySorted Z.le (unique_from seen l).
Proof.
  intros Hsorted. revert seen.
  induction Hsorted as [|y l _ IH Hall]; intros seen; simpl; [constructor|].
  case_bool_decide; [apply IH|]. constructor; [apply IH|].
  apply Forall_forall. intros x [Hx _]%unique_from_elem.
  by apply (proj1 (Forall_forall _ _) Hall).
Qed.

Lemma get_data_sorted response :
  StronglySorted Z.le (unique_timestamps (get_data response)).
Proof.
  simpl. apply unique_from_sorted.
  apply (StronglySorted_fmap _ timestamp_le); [done|].
  apply StronglySorted_merge_sort; apply _.
Qed.

Lemma get_data_elem response t :
  t ∈ unique_timestamps (get_data response)
  ↔ ∃ r, r ∈ response ∧ t = to_uint64 (row_timestamp r).
Proof.
  simpl. unfold unique, _process_bardata. rewrite unique_from_elem.
  rewrite list_elem_of_fmap. setoid_rewrite merge_sort_Permutation.
  setoid_rewrite list_elem_of_fmap. split.
  - intros [(r' & -> & r & -> & Hr) _]. by exists r.
  - intros (r & Hr & ->). split; [|by intros ?%elem_of_nil].
    exists (cast_row r). split; [done|]. by exists r.
Qed.

(** A freshly loaded clock has done nothing and has the whole timeline to do. *)
Lemma init_remaining queue response :
  history (init queue response) = [] ∧
  remaining (init queue response) = timeline (get_data response).
Proof. done. Qed.

(** In every run from a loaded clock the history is a prefix of the timeline,
    and the whole timeline once a call has returned false. *)
Lemma stream_history queue response calls :
  let run := stream calls (init queue response) in
  history run.2 `prefix_of` timeline (get_data response) ∧
  (false ∈ run.1 → history run.2 = timeline (get_data response)).
Proof.
  simpl. destruct (stream_continues calls (init queue response))
    as [(Hdata & Huts & _ & Hhist) Hfalse].
  destruct (init_remaining queue response) as [Hh0 Hr0].
  rewrite Hh0, Hr0 in Hhist. simpl in Hhist. split.
  - rewrite <- Hhist. by eexists.
  - intros Hin. apply Hfalse in Hin. rewrite <- Hhist.
    unfold DataClient.remaining. rewrite Huts.
    rewrite drop_ge by done. simpl. by rewrite app_nil_r.
Qed.

(** *** Progress under a cooperative environment *)

Lemma calls_left_exhausted w :
  (length (unique_timestamps (client w)) ≤ current_date_index (client w))%nat →
  calls_left w = 0%nat.
Proof.
  intros Hlen. unfold DataClient.calls_left.
  rewrite (proj2 (lookup_ge_None _ _) Hlen). lia.
Qed.




(** *** The shape of a timeline *)

Abbreviation batch_of data := (λ t, UpdateMarketData (latest_batch data t) t).



Section Monotone.

Hypothesis day_of_mono : monotone_days day_of.



(** An end of day in the schedule of sorted timestamps is the end of a day
    before the day of the last timestamp. *)
Lemma eod_before_last_day data l previous d t_last :
  StronglySorted Z.le l →
  last l = Some t_last →
  (∀ p t, previous = Some p → t ∈ l → p ≤ day_of t) →
  PutEOD {| eod_timestamp := d |} ∈ schedule_from data previous l →
  d < day_of t_last.
Proof.
  intros Hsorted. revert previous.
  induction Hsorted as [|t l Hsorted IH Hall]; intros previous Hlast Hprev Hin.
  - by apply elem_of_nil in Hin.
  - simpl in Hin. rewrite elem_of_app, elem_of_cons in Hin.
    assert (day_of t ≤ day_of t_last) as Hle.
    { rewrite last_cons in Hlast. destruct (last l) as [t'|] eqn:Hl.
      - injection Hlast as ->. apply last_Some_elem_of in Hl.
        apply day_of_mono. by apply (proj1 (Forall_forall _ _) Hall).
      - by injection Hlast as ->. }
    destruct Hin as [Hin | [Hin | Hin]].
    + destruct previous as [p|]; [|by apply elem_of_nil in Hin].
      case_bool_decide as Hne; [|by apply elem_of_nil in Hin].
      apply list_elem_of_singleton in Hin. injection Hin as ->.
      pose proof (Hprev p t eq_refl ltac:(by left)). lia.
    + discriminate.
    + destruct l as [|t' l']; [by apply elem_of_nil in Hin|].
      apply (IH (Some (day_of t))); [by rewrite last_cons_cons in Hlast | | done].
      intros p t'' [= <-] Hin'. apply day_of_mono.
      by apply (proj1 (Forall_forall _ _) Hall).
Qed.

End Monotone.

(** *** Counting in a prefix of a two-day timeline *)







Lemma stream_exhausted calls w :
  (length (unique_timestamps (client w)) ≤ current_date_index (client w))%nat →
  (stream calls w).1 = replicate (length calls) false ∧
  client (stream calls w).2 = client w ∧
  history (stream calls w).2 = history w.
Proof.
  revert w. induction calls as [|[before waits] calls IH]; intros w Hlen; [done|].
  simpl. rewrite data_stream_exhausted by done.
  destruct (IH (interfere before w) Hlen) as (Hvalues & Hclient & Hhistory).
  destruct (stream calls (interfere before w)) as [values w'']. simpl in *.
  by rewrite Hvalues.
Qed.

(** C7.  A clock whose cursor is past the last timestamp returns false on
    that call and on every later call, whatever the other threads do in
    between, and the calls leave the clock and the history as they are.  And
    under a day function that never goes back in time, no run from a freshly
    loaded clock ever puts an EODEvent for the day of the last timestamp. *)
Theorem exhausted_clock :
  (∀ w calls,
     (length (unique_timestamps (client w)) ≤ current_date_index (client w))%nat →
     (stream calls w).1 = replicate (length calls) false ∧
     client (stream calls w).2 = client w ∧
     history (stream calls w).2 = history w) ∧
  (monotone_days day_of →
   ∀ response queue calls t_last,
     last (unique_timestamps (get_data response)) = Some t_last →
     PutEOD {| eod_timestamp := day_of t_last |}
       ∉ history (stream calls (init queue response)).2).
Proof.
  split; [intros w calls; apply stream_exhausted|].
  intros Hmono response queue calls t_last Hlast Hin.
  destruct (stream_history queue response calls) as [[k Hk] _].
  assert (PutEOD {| eod_timestamp := day_of t_last |} ∈ timeline (get_data response))
    as Hin' by (rewrite Hk; apply elem_of_app; by left).
  apply (eod_before_last_day Hmono) with (t_last := t_last) in Hin'.
  - lia.
  - apply get_data_sorted.
  - done.
  - discriminate.
Qed.

(** C10.  While the clock polls with the flag clear, a wait after which the
    queue is not empty makes the call return true; nothing is published and
    the clock is as it was when it started to poll.  In particular a call that
    finds the clock already waiting for timestamp [t] (the day boundary of [t]
    is behind it) returns true with the history, the cursor, the current day,
    the data and the timestamps unchanged, so that the next call is for [t]
    again. *)
Theorem eod_wait_returns_without_publishing w env waits :
  eod_event_flag (shared w) = false →
  event_queue (env (shared w)) ≠ [] →
  poll (env :: waits) w = Returned true (interfere env w) waits ∧
  (∀ t, polling_for t w →
        data_stream (env :: waits) w = Returned true (interfere env w) waits ∧
        history (interfere env w) = history w ∧
        client (interfere env w) = client w ∧
        unique_timestamps (client (interfere env w))
          !! current_date_index (client (interfere env w)) = Some t).
Proof.
  intros Hflag Hqueue.
  assert (poll (env :: waits) w = Returned true (interfere env w) waits) as Hpoll.
  { simpl. rewrite Hflag. by destruct (event_queue (env (shared w))). }
  split; [done|]. intros t (Ht & Hnext & Hday).
  split; [|done]. unfold DataClient.data_stream.
  rewrite bool_decide_eq_false_2 by (apply lookup_lt_Some in Ht; lia).
  rewrite Ht. unfold day_boundary. simpl. rewrite Hday.
  rewrite bool_decide_eq_false_2 by (intros H; by apply H).
  assert (set_next_date t w = w) as ->; [|done].
  unfold set_next_date. rewrite <- Hnext. by destruct w as [[] ? ?].
Qed.

End DataClientFacts.

(** *** The scenario: bars of two days, handed over with the later day first *)

Section DataClientScenario.

Import Events DataClient Scenario.

Lemma utc_day_mono : monotone_days utc_day.
Proof. intros t1 t2 Hle. unfold utc_day. apply Z.div_le_mono; lia. Qed.


Example loaded_timestamps :
  unique_timestamps (client loaded) = [0; 86400000000000].
Proof. reflexivity. Qed.

Example full_run_values :
  (stream utc_day full_run loaded).1 = [true; true; true; false].
Proof. reflexivity. Qed.

Example full_run_history :
  history finished
  = [ UpdateMarketData
        (<["AAPL"%string := mkBarData "AAPL" 0 100 102 99 101 4000]>
           (<["MSFT"%string := mkBarData "MSFT" 0 200 202 199 201 3000]> ∅)) 0;
      PutEOD {| eod_timestamp := 0 |};
      UpdateMarketData
        {[ "AAPL"%string := mkBarData "AAPL" 86400000000000 101 103 100 102 5000 ]}
        86400000000000 ].
Proof. vm_compute. reflexivity. Qed.

Example waiting_state :
  eod_event_flag (shared waiting) = false ∧
  event_queue (shared waiting) = [EvEOD {| eod_timestamp := 0 |}] ∧
  polling_for utc_day 86400000000000 waiting.
Proof. by vm_compute. Qed.


Lemma exhausted_clock_witness :
  ((stream utc_day [(idle, []); (consumer, [idle])] finished).1 = [false; false] ∧
   client (stream utc_day [(idle, []); (consumer, [idle])] finished).2 = client finished ∧
   history (stream utc_day [(idle, []); (consumer, [idle])] finished).2
   = history finished) ∧
  PutEOD {| eod_timestamp := 1 |} ∉ history finished.
Proof.
  destruct (exhausted_clock utc_day) as [Hfalse Hlast]. split.
  - apply (Hfalse finished [(idle, []); (consumer, [idle])]). vm_compute. lia.
  - apply (Hlast utc_day_mono two_day_rows [] full_run 86400000000000). reflexivity.
Defined.

Lemma eod_wait_returns_without_publishing_witness :
  poll [idle] waiting = Returned true (interfere idle waiting) [] ∧
  data_stream utc_day [idle] waiting = Returned true (interfere idle waiting) [] ∧
  history (interfere idle waiting) = history waiting ∧
  client (interfere idle waiting) = client waiting ∧
  unique_timestamps (client (interfere idle waiting))
    !! current_date_index (client (interfere idle waiting)) = Some 86400000000000.
Proof.
  destruct (eod_wait_returns_without_publishing utc_day waiting idle [])
    as [Hpoll Hcall].
  - reflexivity.
  - discriminate.
  - split; [exact Hpoll|]. apply (Hcall 86400000000000). by vm_compute.
Defined.

End DataClientScenario.

(** * Further properties *)

(** ** Subject: attach, detach, notify *)

Section SubjectFacts.

Import Observer.

Context {Obs : Type} `{EqDecision Obs} {Args World : Type}.
Variable handle_event : Obs → EventType → Args → World → result World.

Implicit Types (self : gmap EventType (list Obs)) (o p : Obs) (e : EventType).
Implicit Types (l : list Obs).

Lemma for_each_app {S A : Type} (body : A → S → result S) (l1 l2 : list A) (s : S) :
  for_each body (l1 ++ l2) s
  = match for_each body l1 s with
    | (Ok _, s') => for_each body l2 s'
    | (Raise x, s') => (Raise x, s')
    end.
Proof.
  revert s. induction l1 as [|a l1 IH]; intros s; simpl; [done|].
  destruct (body a s); [apply IH | done].
Qed.

Lemma observers_of_attach_eq o e self :
  observers_of e (attach o e self) = observers_of e self ++ [o].
Proof.
  unfold observers_of, attach. rewrite lookup_alter_eq.
  case_bool_decide as Hdom.
  - rewrite lookup_insert_eq. by rewrite (proj1 (not_elem_of_dom _ _) Hdom).
  - apply elem_of_dom in Hdom as [l Hl]. by rewrite Hl.
Qed.

Lemma observers_of_attach_ne o e e' self :
  e ≠ e' → observers_of e' (attach o e self) = observers_of e' self.
Proof.
  intros Hne. unfold observers_of, attach. rewrite lookup_alter_ne by done.
  case_bool_decide; [by rewrite lookup_insert_ne|done].
Qed.



Lemma list_remove_notin o l : o ∉ l → list_remove o l = l.
Proof.
  induction l as [|p l IH]; [done|]. intros [Hne Hnotin]%not_elem_of_cons. simpl.
  rewrite bool_decide_eq_false_2 by done. by rewrite IH.
Qed.

Lemma list_remove_split o l :
  o ∈ l → ∃ l1 l2, l = l1 ++ o :: l2 ∧ (o ∉ l1) ∧ list_remove o l = l1 ++ l2.
Proof.
  induction l as [|p l IH]; [by intros ?%elem_of_nil|]. intros Hin. simpl.
  case_bool_decide as Heq.
  - subst p. exists [], l. split_and!; [done | apply not_elem_of_nil | done].
  - apply elem_of_cons in Hin as [-> | Hin]; [done|].
    destruct (IH Hin) as (l1 & l2 & -> & Hnotin & ->).
    exists (p :: l1), l2. split_and!; [done | | done].
    apply not_elem_of_cons. split; [by intros -> | done].
Qed.

Lemma list_remove_Permutation o l : o ∈ l → o :: list_remove o l ≡ₚ l.
Proof.
  intros (l1 & l2 & -> & _ & ->)%list_remove_split. by rewrite Permutation_middle.
Qed.

Lemma observers_of_detach_eq o e self :
  observers_of e (detach o e self) = list_remove o (observers_of e self).
Proof.
  unfold observers_of, detach. destruct (self !! e) as [l|] eqn:Hl; simpl.
  - case_bool_decide as Hin.
    + by rewrite lookup_insert_eq.
    + rewrite Hl. simpl. by rewrite list_remove_notin.
  - by rewrite Hl.
Qed.

Lemma observers_of_detach_ne o e e' self :
  e ≠ e' → observers_of e' (detach o e self) = observers_of e' self.
Proof.
  intros Hne. unfold observers_of, detach. destruct (self !! e) as [l|]; [|done].
  case_bool_decide; [by rewrite lookup_insert_ne | done].
Qed.

(** X2.  [detach] after [attach] of the same observer leaves the same
    observers, up to order: what is removed is the first occurrence of the
    observer, not the one just attached.  When the observer was not attached
    before, the list is exactly as it was.  Other event types are untouched. *)
Theorem detach_after_attach o e self :
  observers_of e (detach o e (attach o e self))
  = list_remove o (observers_of e self ++ [o]) ∧
  observers_of e (detach o e (attach o e self)) ≡ₚ observers_of e self ∧
  (o ∉ observers_of e self →
   observers_of e (detach o e (attach o e self)) = observers_of e self) ∧
  (∀ e', e ≠ e' →
         observers_of e' (detach o e (attach o e self)) = observers_of e' self).
Proof.
  rewrite observers_of_detach_eq, observers_of_attach_eq. split_and!.
  - done.
  - apply (Permutation_cons_inv (a := o)).
    rewrite list_remove_Permutation by (apply elem_of_app; right; by left).
    by rewrite Permutation_app_comm.
  - intros Hnotin.
    destruct (list_remove_split o (observers_of e self ++ [o]))
      as (l1 & l2 & Hsplit & Hl1 & ->); [apply elem_of_app; right; by left|].
    destruct l2 as [|p l2].
    + apply app_inj_tail in Hsplit as [-> _]. by rewrite app_nil_r.
    + exfalso. apply Hnotin.
      assert (o ∈ removelast (observers_of e self ++ [o])) as Hin.
      { rewrite Hsplit. rewrite removelast_app by done. apply elem_of_app. right.
        simpl. by left. }
      by rewrite removelast_last in Hin.
  - intros e' Hne. by rewrite observers_of_detach_ne, observers_of_attach_ne.
Qed.

Lemma times_attached_split o p l1 l2 :
  length (filter (λ q, q = p) (l1 ++ o :: l2))
  = (length (filter (λ q, q = p) (l1 ++ l2)) + if bool_decide (o = p) then 1 else 0)%nat.
Proof.
  rewrite !filter_app, !length_app, filter_cons.
  case_bool_decide; [rewrite decide_True by done | rewrite decide_False by done];
    simpl; lia.
Qed.

(** X3.  [detach] of an observer that is not attached to the event type
    changes nothing.  [detach] of an attached observer removes one of its
    occurrences: the observer is attached one time less, every other observer
    as often as before, and the list is one shorter. *)
Theorem detach_removes_one o e self :
  (o ∉ observers_of e self → detach o e self = self) ∧
  (o ∈ observers_of e self →
   S (times_attached o e (detach o e self)) = times_attached o e self ∧
   (∀ p, p ≠ o → times_attached p e (detach o e self) = times_attached p e self) ∧
   S (length (observers_of e (detach o e self))) = length (observers_of e self)).
Proof.
  split.
  - unfold observers_of, detach. destruct (self !! e) as [l|]; [|done]. simpl.
    intros Hnotin. by rewrite bool_decide_eq_false_2.
  - intros Hin. unfold times_attached. rewrite observers_of_detach_eq.
    destruct (list_remove_split o _ Hin) as (l1 & l2 & -> & _ & ->). split_and!.
    + rewrite times_attached_split. rewrite bool_decide_eq_true_2 by done. lia.
    + intros p Hne. rewrite times_attached_split.
      rewrite bool_decide_eq_false_2 by done. lia.
    + rewrite !length_app. simpl. lia.
Qed.

End SubjectFacts.

Section SubjectScenario.

Import Observer Cases.


Lemma detach_after_attach_witness :
  observers_of SIGNAL (detach 4%nat SIGNAL (attach 4%nat SIGNAL three_observers))
  = observers_of SIGNAL three_observers.
Proof.
  apply (proj1 (proj2 (proj2 (detach_after_attach 4%nat SIGNAL three_observers)))).
  vm_compute. intros Hin. by repeat (apply elem_of_cons in Hin as [? | Hin]; [lia|]);
    apply elem_of_nil in Hin.
Defined.

Lemma detach_removes_one_witness :
  S (times_attached 2%nat SIGNAL (detach 2%nat SIGNAL three_observers))
  = times_attached 2%nat SIGNAL three_observers.
Proof.
  apply (proj2 (detach_removes_one 2%nat SIGNAL three_observers)).
  vm_compute. right. by left.
Defined.

End SubjectScenario.

(** ** Orders: what is stored and which error is raised *)

Section OrderFields.

Import Orders.

Lemma BaseOrder_init_opp a q t : BaseOrder_init a (- q) t = BaseOrder_init a q t.
Proof.
  unfold BaseOrder_init. destruct (to_broker_standard a) as [b|x]; [|done]. simpl.
  rewrite Z.abs_opp. destruct (decide (q = 0)) as [-> | Hq]; [done|].
  rewrite !bool_decide_eq_false_2 by lia. done.
Qed.

(** X4.  The sign of the quantity handed to a constructor is ignored: a
    quantity and its opposite give the same result, order or exception, for
    market, limit and stop orders. *)
Theorem order_ignores_sign_of_quantity (a : Action) (q p : Z) :
  MarketOrder a (- q) = MarketOrder a q ∧
  LimitOrder a (- q) p = LimitOrder a q p ∧
  StopLoss a (- q) p = StopLoss a q p.
Proof.
  unfold MarketOrder, LimitOrder, StopLoss. by rewrite !BaseOrder_init_opp.
Qed.

(** X5.  Which error a priced order raises: a non-positive price is reported
    first, whatever the quantity; a zero quantity is reported only when the
    price is positive. *)
Theorem priced_order_error_precedence (a : Action) (q p : Z) :
  (p ≤ 0 →
   LimitOrder a q p
   = Raise (ValueError "'limit_price' field must be greater than zero.") ∧
   StopLoss a q p
   = Raise (ValueError "'aux_price' field must be greater than zero.")) ∧
  (0 < p →
   LimitOrder a 0 p = Raise (ValueError "'quantity' field must not be zero.") ∧
   StopLoss a 0 p = Raise (ValueError "'quantity' field must not be zero.")).
Proof.
  unfold LimitOrder, StopLoss. split; intros Hp.
  - by rewrite !bool_decide_eq_true_2.
  - rewrite !bool_decide_eq_false_2 by lia. by destruct a.
Qed.

Lemma priced_order_error_precedence_witness :
  LimitOrder LONG 0 (-3)
  = Raise (ValueError "'limit_price' field must be greater than zero.") ∧
  StopLoss SELL 0 7 = Raise (ValueError "'quantity' field must not be zero.").
Proof.
  split.
  - apply (proj1 (priced_order_error_precedence LONG 0 (-3))). lia.
  - apply (proj2 (priced_order_error_precedence SELL 0 7)). lia.
Defined.

(** X6.  What a constructed order carries.  For a non-zero quantity and a
    positive price: the broker action is BUY for LONG and COVER and SELL for
    SHORT and SELL; the order type is MKT, LMT or STP; the stored quantity is
    the absolute value; a market order has no price, a limit order has only
    the limit price and a stop order only the stop price. *)
Theorem constructed_order_fields (a : Action) (q p : Z) :
  q ≠ 0 → 0 < p →
  let side := if bool_decide (a = LONG ∨ a = COVER) then "BUY" else "SELL" in
  MarketOrder a q = Ok (mkBaseOrder (mkOrder side "MKT" (Z.abs q) None None)) ∧
  LimitOrder a q p = Ok (mkBaseOrder (mkOrder side "LMT" (Z.abs q) (Some p) None)) ∧
  StopLoss a q p = Ok (mkBaseOrder (mkOrder side "STP" (Z.abs q) None (Some p))).
Proof.
  intros Hq Hp. unfold MarketOrder, LimitOrder, StopLoss.
  rewrite !(bool_decide_eq_false_2 (p ≤ 0)) by lia.
  destruct (BaseOrder_init_nonzero a q MARKET Hq) as (b & Hb & ->).
  destruct (BaseOrder_init_nonzero a q LIMIT Hq) as (b1 & Hb1 & ->).
  destruct (BaseOrder_init_nonzero a q STOPLOSS Hq) as (b2 & Hb2 & ->).
  destruct a; cbv in Hb, Hb1, Hb2; simplify_eq; by split_and!.
Qed.

Lemma constructed_order_fields_witness :
  MarketOrder COVER (-4) = Ok (mkBaseOrder (mkOrder "BUY" "MKT" 4 None None)) ∧
  LimitOrder COVER (-4) 9 = Ok (mkBaseOrder (mkOrder "BUY" "LMT" 4 (Some 9) None)) ∧
  StopLoss COVER (-4) 9 = Ok (mkBaseOrder (mkOrder "BUY" "STP" 4 None (Some 9))).
Proof. apply (constructed_order_fields COVER (-4) 9); lia. Defined.

End OrderFields.

(** ** Portfolio server: accounts, orders, positions *)

Section PortfolioServerMore.

Import Portfolio Cases.

Implicit Types (self : PortfolioServer) (order : ActiveOrder) (id : PyVal).
Implicit Types (ops : list Operation).

Ltac open_update_orders :=
  unfold update_orders, status_is, status_is_not, orderId_active,
    orderId_not_active, getitem.

Lemma fold_result_app {S A : Type} (body : S → A → result S) (l1 l2 : list A) (s : S) :
  fold_result body (l1 ++ l2) s = fold_result body l1 s ≫= fold_result body l2.
Proof.
  revert s. induction l1 as [|a l1 IH]; intros s; simpl; [done|].
  destruct (body s a); simpl; [apply IH | done].
Qed.

(** Every branch of [update_orders] that returns appends one ORDER_UPDATE and
    keeps positions, account and the other orders. *)
Lemma update_orders_Ok_inv order self self' :
  update_orders order self = Ok self' →
  notified self' = notified self ++ [ORDER_UPDATE] ∧
  positions self' = positions self ∧
  account self' = account self ∧
  pending_positions_update self ⊆ pending_positions_update self' ∧
  (∀ id, order !! "orderId"%string ≠ Some id →
         active_orders self' !! id = active_orders self !! id).
Proof.
  open_update_orders.
  destruct (order !! "status"%string) as [v|]; [|discriminate].
  destruct (order !! "orderId"%string) as [id0|]; simpl;
    destruct (order !! "symbol"%string) as [sym|]; simpl;
    repeat (case_bool_decide; simpl); intros; simplify_eq; simpl;
    (split_and!; [done | done | done | set_solver |]);
    intros id Hid; rewrite ?lookup_delete_ne, ?lookup_insert_ne, ?lookup_alter_ne;
    congruence.
Qed.

(** X7.  [update_orders] publishes exactly one ORDER_UPDATE on every call that
    returns, whatever branch it takes; it leaves positions and account alone,
    never removes a pending marker, and touches no active order other than
    the one whose id the update carries. *)
Theorem update_orders_frame order self self' :
  update_orders order self = Ok self' →
  notified self' = notified self ++ [ORDER_UPDATE] ∧
  positions self' = positions self ∧
  account self' = account self ∧
  pending_positions_update self ⊆ pending_positions_update self' ∧
  (∀ id, order !! "orderId"%string ≠ Some id →
         active_orders self' !! id = active_orders self !! id).
Proof. apply update_orders_Ok_inv. Qed.

Lemma update_orders_frame_witness :
  ∃ self',
    update_orders (Scenario.order7 "Submitted") Scenario.holding_100 = Ok self' ∧
    notified self' = notified Scenario.holding_100 ++ [ORDER_UPDATE] ∧
    positions self' = positions Scenario.holding_100 ∧
    active_orders self' !! VInt 8 = None.
Proof.
  eexists. split; [reflexivity|].
  destruct (update_orders_frame (Scenario.order7 "Submitted") Scenario.holding_100 _
              eq_refl) as (Hn & Hp & _ & _ & Hother).
  split_and!; [exact Hn | exact Hp |]. rewrite (Hother (VInt 8)); [done | discriminate].
Defined.

(** X8.  Which key [update_orders] misses.  Without "status" it raises
    KeyError for "status"; with a status but without "orderId" it raises
    KeyError for "orderId"; a Filled update for an active id without "symbol"
    raises KeyError for "symbol", while the same update for an id that is not
    active returns, since the symbol is never read. *)
Theorem update_orders_missing_key order self :
  (order !! "status"%string = None →
   update_orders order self = Raise (KeyError "status")) ∧
  (is_Some (order !! "status"%string) → order !! "orderId"%string = None →
   update_orders order self = Raise (KeyError "orderId")) ∧
  (∀ id, order !! "status"%string = Some (VStr "Filled") →
         order !! "orderId"%string = Some id →
         order !! "symbol"%string = None →
         if bool_decide (id ∈ dom (active_orders self))
         then update_orders order self = Raise (KeyError "symbol")
         else update_orders order self = Ok (notify ORDER_UPDATE self)).
Proof.
  split_and!.
  - intros Hs. open_update_orders. by rewrite Hs.
  - intros [v Hs] Hid. open_update_orders. rewrite Hs, Hid. simpl.
    by repeat (case_bool_decide; simpl).
  - intros id Hs Hid Hsym. open_update_orders. rewrite Hs, Hid, Hsym. simpl.
    by case_bool_decide.
Qed.

Lemma update_orders_missing_key_witness :
  update_orders ∅ init = Raise (KeyError "status") ∧
  update_orders {[ "status"%string := VStr "Filled" ]} init = Raise (KeyError "orderId") ∧
  update_orders (delete "symbol"%string (Scenario.order7 "Filled")) init
  = Ok (notify ORDER_UPDATE init).
Proof.
  destruct (update_orders_missing_key ∅ init) as (H1 & _ & _).
  destruct (update_orders_missing_key {[ "status"%string := VStr "Filled" ]} init)
    as (_ & H2 & _).
  destruct (update_orders_missing_key
              (delete "symbol"%string (Scenario.order7 "Filled")) init) as (_ & _ & H3).
  split_and!.
  - by apply H1.
  - apply H2; [by eexists | done].
  - by apply (H3 (VInt 7)).
Defined.

(** X9.  An update with a status other than Filled and Cancelled for an id
    that is already active merges into the stored order as [dict.update]
    does: every key of the update overwrites, every other key of the stored
    order stays.  So a status update that names no symbol keeps the symbol of
    the stored order among the instruments that block signals. *)
Theorem update_orders_merges order self id (v : PyVal) (stored : ActiveOrder) :
  order !! "status"%string = Some v →
  v ≠ VStr "Cancelled" → v ≠ VStr "Filled" →
  order !! "orderId"%string = Some id →
  active_orders self !! id = Some stored →
  ∃ self' merged,
    update_orders order self = Ok self' ∧
    active_orders self' !! id = Some merged ∧
    (∀ k, merged !! k = match order !! k with
                        | Some x => Some x
                        | None => stored !! k
                        end) ∧
    (∀ x, order !! "symbol"%string = None → stored !! "symbol"%string = Some x →
          blocks_signals self' x).
Proof.
  intros Hs Hc Hf Hid Hstored.
  rewrite (update_orders_open order self id v Hs Hc Hf Hid).
  rewrite bool_decide_eq_false_2
    by (intros Hnot; apply Hnot, elem_of_dom; by eexists).
  eexists _, (order ∪ stored). split; [done|]. simpl. split_and!.
  - by rewrite lookup_alter_eq, Hstored.
  - intros k. rewrite lookup_union. by destruct (order !! k), (stored !! k).
  - intros x Hnone Hx. left. exists id, (order ∪ stored). simpl.
    rewrite lookup_alter_eq, Hstored. split; [done|].
    rewrite lookup_union, Hnone, Hx. done.
Qed.

Lemma update_orders_merges_witness :
  ∃ self' merged,
    update_orders {[ "orderId"%string := VInt 7; "status"%string := VStr "PreSubmitted" ]}
                  (OrderManager.portfolio_server Scenario.busy_manager) = Ok self' ∧
    active_orders self' !! VInt 7 = Some merged ∧
    merged !! "status"%string = Some (VStr "PreSubmitted") ∧
    merged !! "symbol"%string = Some (VStr "AAPL") ∧
    blocks_signals self' (VStr "AAPL").
Proof.
  destruct (update_orders_merges
              {[ "orderId"%string := VInt 7; "status"%string := VStr "PreSubmitted" ]}
              (OrderManager.portfolio_server Scenario.busy_manager) (VInt 7)
              (VStr "PreSubmitted") (Scenario.order7 "Submitted"))
    as (self' & merged & Hup & Hlook & Hkeys & Hblocks);
    [reflexivity | discriminate | discriminate | reflexivity | reflexivity |].
  exists self', merged. split_and!; [exact Hup | exact Hlook | | |].
  - by rewrite Hkeys.
  - by rewrite Hkeys.
  - by apply Hblocks.
Defined.

Lemma apply_operation_account op self self' :
  apply_operation op self = Ok self' →
  account self' = match op with
                  | UpdateAccount a => Some a
                  | _ => account self
                  end.
Proof.
  destruct op as [contract new_position | order | a]; simpl.
  - intros [= <-]. unfold update_positions.
    by repeat (case_bool_decide; simpl).
  - intros H. by apply update_orders_Ok_inv in H as (_ & _ & -> & _).
  - by intros [= <-].
Qed.

Lemma run_operations_keeps_account ops self self' :
  Forall (λ op, ¬ is_account_update op) ops →
  run_operations ops self = Ok self' →
  account self' = account self.
Proof.
  unfold run_operations. intros Hall. revert self.
  induction Hall as [|op ops Hop _ IH]; intros self; simpl; [by intros [= ->]|].
  intros H. apply bind_Ok_inv in H as (self1 & H1 & H).
  rewrite (IH _ H). rewrite (apply_operation_account _ _ _ H1).
  by destruct op.
Qed.

(** X10.  The capital is that of the last account snapshot.  Before any
    account update the [capital] property raises AttributeError, however many
    position and order updates have run; after an account update it is the
    capital of that snapshot, and later position and order updates do not
    change it. *)
Theorem capital_is_last_snapshot ops self' :
  (Forall (λ op, ¬ is_account_update op) ops →
   run_operations ops init = Ok self' →
   capital self' = Raise (AttributeError "account")) ∧
  (∀ self before a after,
     ops = before ++ UpdateAccount a :: after →
     Forall (λ op, ¬ is_account_update op) after →
     run_operations ops self = Ok self' →
     capital self' = Ok (account_capital a)).
Proof.
  split.
  - intros Hall Hrun. unfold capital.
    by rewrite (run_operations_keeps_account _ _ _ Hall Hrun).
  - intros self before a after -> Hall Hrun. unfold run_operations in Hrun.
    rewrite fold_result_app in Hrun. apply bind_Ok_inv in Hrun as (self1 & _ & Hrun).
    simpl in Hrun. unfold capital.
    by rewrite (run_operations_keeps_account _ _ _ Hall Hrun).
Qed.

Lemma capital_is_last_snapshot_witness :
  (∃ self',
     run_operations [UpdatePositions Scenario.AAPL (mkPosition 10 5);
                     UpdateOrders (Scenario.order7 "Submitted")] init = Ok self' ∧
     capital self' = Raise (AttributeError "account")) ∧
  (∃ self',
     run_operations [UpdateAccount (mkAccount 100 100);
                     UpdateAccount (mkAccount 250 300);
                     UpdateOrders (Scenario.order7 "Submitted")] init = Ok self' ∧
     capital self' = Ok 250).
Proof.
  split; eexists; (split; [reflexivity|]).
  - apply (proj1 (capital_is_last_snapshot
                    [UpdatePositions Scenario.AAPL (mkPosition 10 5);
                     UpdateOrders (Scenario.order7 "Submitted")] _));
      [|reflexivity].
    repeat constructor; by intros [].
  - apply (proj2 (capital_is_last_snapshot
                    [UpdateAccount (mkAccount 100 100);
                     UpdateAccount (mkAccount 250 300);
                     UpdateOrders (Scenario.order7 "Submitted")] _)
             init [UpdateAccount (mkAccount 100 100)]
             (mkAccount 250 300) [UpdateOrders (Scenario.order7 "Submitted")]);
      [reflexivity | | reflexivity].
    repeat constructor; by intros [].
Defined.

(** X11.  What [update_positions] changes.  It never touches the active
    orders or the account, never adds a pending marker, and leaves the
    positions of every other symbol as they were.  For a symbol that is not
    held it stores the incoming position; for a held symbol and quantity 0 it
    removes the position; in both cases it clears the symbol's pending marker
    and publishes exactly one POSITION_UPDATE. *)
Theorem update_positions_effects contract new_position self :
  let self' := update_positions contract new_position self in
  let s := Events.symbol contract in
  active_orders self' = active_orders self ∧
  account self' = account self ∧
  pending_positions_update self' ⊆ pending_positions_update self ∧
  (∀ s', s' ≠ s → positions self' !! s' = positions self !! s') ∧
  (positions self !! s = None →
   positions self' !! s = Some new_position ∧
   (VStr s ∉ pending_positions_update self') ∧
   notified self' = notified self ++ [POSITION_UPDATE]) ∧
  (is_Some (positions self !! s) → quantity new_position = 0 →
   positions self' !! s = None ∧
   (VStr s ∉ pending_positions_update self') ∧
   notified self' = notified self ++ [POSITION_UPDATE]).
Proof.
  simpl. split_and!.
  - unfold update_positions. by repeat (case_bool_decide; simpl).
  - unfold update_positions. by repeat (case_bool_decide; simpl).
  - unfold update_positions. repeat (case_bool_decide; simpl); set_solver.
  - intros s' Hne. unfold update_positions.
    repeat (case_bool_decide; simpl);
      by rewrite ?lookup_delete_ne, ?lookup_insert_ne.
  - intros Hnone. rewrite update_positions_new by (by apply not_elem_of_dom).
    simpl. split_and!; [apply lookup_insert_eq | set_solver | done].
  - intros Hsome Hzero.
    rewrite update_positions_existing_zero by (by try apply elem_of_dom).
    simpl. split_and!; [apply lookup_delete_eq | set_solver | done].
Qed.

Lemma update_positions_effects_witness :
  let self' := update_positions Scenario.AAPL (mkPosition 0 0) Scenario.holding_100 in
  positions self' !! "AAPL"%string = None ∧
  (VStr "AAPL" ∉ pending_positions_update self') ∧
  notified self' = notified Scenario.holding_100 ++ [POSITION_UPDATE].
Proof.
  destruct (update_positions_effects Scenario.AAPL (mkPosition 0 0) Scenario.holding_100)
    as (_ & _ & _ & _ & _ & Hzero).
  apply Hzero; [by eexists | reflexivity].
Defined.

(** X12.  Repeating a position update with a non-zero quantity changes
    nothing: the second call stores nothing and publishes nothing. *)
Theorem update_positions_idempotent contract new_position self :
  quantity new_position ≠ 0 →
  update_positions contract new_position
    (update_positions contract new_position self)
  = update_positions contract new_position self.
Proof.
  intros Hq. apply update_positions_existing_nonzero; [|done].
  destruct (decide (Events.symbol contract ∈ dom (positions self))) as [Hin | Hnot].
  - by rewrite update_positions_existing_nonzero.
  - rewrite update_positions_new by done. simpl. rewrite dom_insert_L. set_solver.
Qed.

Lemma update_positions_idempotent_witness :
  update_positions Scenario.AAPL (mkPosition 10 5)
    (update_positions Scenario.AAPL (mkPosition 10 5) init)
  = update_positions Scenario.AAPL (mkPosition 10 5) init.
Proof. apply update_positions_idempotent. discriminate. Defined.

Lemma update_positions_keeps_or_removes contract new_position self s v :
  positions self !! s = Some v →
  positions (update_positions contract new_position self) !! s = Some v ∨
  (Events.symbol contract = s ∧ quantity new_position = 0).
Proof.
  intros Hv. unfold update_positions.
  destruct (decide (Events.symbol contract = s)) as [-> | Hne].
  - rewrite bool_decide_eq_true_2 by (apply elem_of_dom; by eexists).
    case_bool_decide; [by right | by left].
  - left. repeat (case_bool_decide; simpl);
      by rewrite ?lookup_delete_ne, ?lookup_insert_ne.
Qed.

(** X13.  A stored position is never overwritten.  Through any run of
    position, order and account updates that contains no zero-quantity
    position update for a symbol, the position stored for that symbol at the
    start is still the one stored at the end, whatever positions the updates
    carried for it. *)
Theorem stored_position_is_kept ops self self' s v :
  positions self !! s = Some v →
  Forall (λ op, ¬ is_removal_of s op) ops →
  run_operations ops self = Ok self' →
  positions self' !! s = Some v.
Proof.
  unfold run_operations. intros Hv Hall. revert self Hv.
  induction Hall as [|op ops Hop _ IH]; intros self Hv; simpl; [by intros [= <-]|].
  intros H. apply bind_Ok_inv in H as (self1 & H1 & H). apply (IH self1); [|done].
  destruct op as [contract new_position | order | a]; simpl in H1.
  - injection H1 as <-.
    destruct (update_positions_keeps_or_removes contract new_position self s v Hv)
      as [Hkept | Hremoved]; [done | by destruct Hop].
  - apply update_orders_Ok_inv in H1 as (_ & -> & _). done.
  - by injection H1 as <-.
Qed.

Lemma stored_position_is_kept_witness :
  ∃ self',
    run_operations [UpdatePositions Scenario.AAPL (mkPosition 150 155);
                    UpdateAccount (mkAccount 100 100);
                    UpdatePositions Scenario.AAPL (mkPosition (-20) 160)]
                   Scenario.holding_100 = Ok self' ∧
    positions self' !! "AAPL"%string = Some (mkPosition 100 150).
Proof.
  eexists. split; [reflexivity|].
  apply (stored_position_is_kept
           [UpdatePositions Scenario.AAPL (mkPosition 150 155);
            UpdateAccount (mkAccount 100 100);
            UpdatePositions Scenario.AAPL (mkPosition (-20) 160)]
           Scenario.holding_100); [reflexivity | | reflexivity].
  repeat constructor; simpl; intros H; try done; destruct H; discriminate.
Defined.

(** X14.  From a fill to the position update.  A Filled update for an active
    order sets the pending marker of its symbol.  The position update that
    follows clears the marker when the symbol is not held or the incoming
    quantity is 0; when the symbol is held and the incoming quantity is not
    0, the marker stays and the symbol keeps blocking signals. *)
Theorem fill_then_position_update order self id (ticker : string) contract new_position :
  order !! "status"%string = Some (VStr "Filled") →
  order !! "orderId"%string = Some id →
  order !! "symbol"%string = Some (VStr ticker) →
  id ∈ dom (active_orders self) →
  Events.symbol contract = ticker →
  ∃ filled,
    update_orders order self = Ok filled ∧
    VStr ticker ∈ pending_positions_update filled ∧
    (positions self !! ticker = None ∨ quantity new_position = 0 →
     VStr ticker ∉ pending_positions_update
                     (update_positions contract new_position filled)) ∧
    (is_Some (positions self !! ticker) → quantity new_position ≠ 0 →
     blocks_signals (update_positions contract new_position filled) (VStr ticker)).
Proof.
  intros Hs Hid Hsym Hactive <-. eexists. split.
  { by apply (update_orders_filled order self id (VStr (Events.symbol contract))). }
  simpl. split; [set_solver|]. split.
  - intros Hcase.
    destruct (positions self !! Events.symbol contract) as [v|] eqn:Hpos.
    + destruct Hcase as [? | Hzero]; [done|].
      rewrite update_positions_existing_zero; [simpl; set_solver | | done].
      simpl. apply elem_of_dom. by eexists.
    + rewrite update_positions_new; [simpl; set_solver|].
      simpl. by apply not_elem_of_dom.
  - intros Hheld Hq. rewrite update_positions_existing_nonzero; [| |done].
    + right. simpl. set_solver.
    + simpl. by apply elem_of_dom.
Qed.

Lemma fill_then_position_update_witness :
  ∃ filled,
    update_orders (Scenario.order7 "Filled")
                  (OrderManager.portfolio_server Scenario.busy_manager) = Ok filled ∧
    VStr "AAPL" ∈ pending_positions_update filled ∧
    VStr "AAPL" ∉ pending_positions_update
                    (update_positions Scenario.AAPL (mkPosition 60 1) filled).
Proof.
  destruct (fill_then_position_update (Scenario.order7 "Filled")
              (OrderManager.portfolio_server Scenario.busy_manager) (VInt 7) "AAPL"
              Scenario.AAPL (mkPosition 60 1))
    as (filled & Hup & Hmark & Hclear & _);
    [reflexivity | reflexivity | reflexivity | | reflexivity |].
  - simpl. rewrite dom_singleton_L. by apply elem_of_singleton.
  - exists filled. split_and!; [exact Hup | exact Hmark |]. apply Hclear. by left.
Defined.

(** X15.  [get_active_order_tickers] raises exactly when some active order
    has no "symbol" key, and what it raises is the KeyError for "symbol". *)
Theorem get_active_order_tickers_raises self :
  (raises (get_active_order_tickers self)
   ↔ ∃ id order, active_orders self !! id = Some order ∧
                 order !! "symbol"%string = None) ∧
  (raises (get_active_order_tickers self) →
   get_active_order_tickers self = Raise (KeyError "symbol")).
Proof.
  assert (∀ l : list (PyVal * ActiveOrder),
            (∃ ys, mapM (λ item : PyVal * ActiveOrder, getitem item.2 "symbol") l = Ok ys)
            ∨ (mapM (λ item : PyVal * ActiveOrder, getitem item.2 "symbol") l
               = Raise (KeyError "symbol")
               ∧ ∃ item, item ∈ l ∧ item.2 !! "symbol"%string = None)) as Hcases.
  { induction l as [|[id order] l IH]; [left; by exists []|].
    change (mapM (λ item : PyVal * ActiveOrder, getitem item.2 "symbol")
                 ((id, order) :: l))
      with (y ← getitem order "symbol";
            k ← mapM (λ item : PyVal * ActiveOrder, getitem item.2 "symbol") l;
            Ok (y :: k)).
    destruct (order !! "symbol"%string) as [v|] eqn:Hv.
    - rewrite (getitem_Some _ _ _ Hv).
      destruct IH as [[ys ->] | [-> (item & Hin & Hnone)]].
      + left. by eexists.
      + right. split; [done|]. exists item. split; [by right | done].
    - right.
      assert (getitem order "symbol" = Raise (KeyError "symbol")) as ->
        by (unfold getitem; by rewrite Hv).
      split; [done|]. exists (id, order). split; [by left | done]. }
  unfold get_active_order_tickers.
  destruct (Hcases (map_to_list (active_orders self)))
    as [[ys Hys] | [Hraise ([id order] & Hin & Hnone)]].
  - rewrite Hys. cbn. split; [|by intros [x [=]]]. split; [by intros [x [=]]|].
    intros (id & order & Hlook & Hnone). exfalso.
    apply mapM_result_Ok in Hys.
    apply elem_of_map_to_list, list_elem_of_lookup in Hlook as [i Hi].
    destruct (Forall2_lookup_l _ _ _ _ _ Hys Hi) as (y & _ & Hget).
    simpl in Hget. unfold getitem in Hget. by rewrite Hnone in Hget.
  - rewrite Hraise. cbn. split; [|done]. split; [|intros _; by eexists].
    intros _. exists id, order. split; [by apply elem_of_map_to_list | done].
Qed.

Lemma get_active_order_tickers_raises_witness :
  get_active_order_tickers
    (set_active_orders {[ VInt 7 := delete "symbol"%string (Scenario.order7 "Submitted") ]}
       init)
  = Raise (KeyError "symbol").
Proof.
  destruct (get_active_order_tickers_raises
              (set_active_orders
                 {[ VInt 7 := delete "symbol"%string (Scenario.order7 "Submitted") ]} init))
    as [Hiff Hkey].
  apply Hkey, Hiff.
  exists (VInt 7), (delete "symbol"%string (Scenario.order7 "Submitted")).
  split; reflexivity.
Defined.

End PortfolioServerMore.

(** ** Order execution manager: failures and what is never published *)

Section OrderManagerMore.

Import Events OrderManager Cases.

Context {Price : Type}.
Variable to_order : SignalInstruction → result Orders.BaseOrder.
Variable order_book_retrieve : Z → result Price.
Variable OrderEvent_post_init : OrderEvent → result unit.

Abbreviation OEM := (OrderExecutionManager Price).
Abbreviation order_cost := (order_cost Price to_order order_book_retrieve).
Abbreviation collect_order := (collect_order Price to_order order_book_retrieve).
Abbreviation dispatch_order := (dispatch_order Price OrderEvent_post_init).
Abbreviation _handle_signal :=
  (_handle_signal Price to_order order_book_retrieve OrderEvent_post_init).
Abbreviation handle_event :=
  (handle_event Price to_order order_book_retrieve OrderEvent_post_init).
Abbreviation created_for := (created_for Price to_order).
Abbreviation publish events self :=
  {| portfolio_server := portfolio_server self;
     symbols_map := symbols_map self;
     notified := notified self ++ (pair ORDER_CREATED <$> events) |}.

Implicit Types (self : OEM) (trade : SignalInstruction) (d : OrderDetails).
Implicit Types (trades pre post : list SignalInstruction).


Lemma publish_nil self : publish [] self = self.
Proof. destruct self. simpl. by rewrite app_nil_r. Qed.


(** The relation the first loop sets up between an instruction and its
    entry of [orders]. *)
Abbreviation collected timestamp self :=
  (λ trade d, created_for timestamp self trade (event_of d)
              ∧ details_action d = action trade).

(** Second loop, when every order is admitted whatever the manager is. *)
Lemma dispatch_all timestamp (self0 : OEM) total trades orders :
  Forall (λ d, ∀ self, portfolio_server self = portfolio_server self0 →
                       admits Price self total d = Ok true) orders →
  (∀ trade event, trade ∈ trades → created_for timestamp self0 trade event →
                  OrderEvent_post_init event = Ok tt) →
  Forall2 (collected timestamp self0) trades orders →
  ∀ self,
    portfolio_server self = portfolio_server self0 →
    ∃ events,
      Forall2 (created_for timestamp self0) trades events ∧
      for_each (dispatch_order total) orders self = (Ok tt, publish events self).
Proof.
  intros Hadm Hpost Hall. revert Hadm.
  induction Hall as [|trade d trades orders [Hev Hact] _ IH]; intros Hadm self Hps.
  - exists []. split; [constructor|]. simpl. by rewrite publish_nil.
  - apply Forall_cons in Hadm as [Hd Hadm]. simpl.
    rewrite (dispatch_order_admitted OrderEvent_post_init self total d (Hd self Hps));
      [|apply (Hpost trade); [by left | done]].
    destruct (IH (λ trade' event Hin, Hpost trade' event (list_elem_of_further _ _ _ Hin))
                 Hadm (notify Price ORDER_CREATED (event_of d) self) Hps)
      as (events & Hevents & ->).
    exists (event_of d :: events). split; [by constructor|].
    simpl. by rewrite <- app_assoc.
Qed.

Lemma admits_exit self total d :
  details_action d ∈ [Orders.SELL; Orders.COVER] → admits Price self total d = Ok true.
Proof. intros Hexit. unfold admits. by rewrite bool_decide_eq_true_2. Qed.

Lemma dispatch_entry_without_account self total d :
  details_action d ∉ [Orders.SELL; Orders.COVER] →
  Portfolio.account (portfolio_server self) = None →
  dispatch_order total d self = Raise (AttributeError "account").
Proof.
  intros Hentry Hacc. unfold OrderManager.dispatch_order, admits, Portfolio.capital.
  rewrite bool_decide_eq_false_2 by done. by rewrite Hacc.
Qed.

(** X17.  Exits need no capital, entries do.  On a manager whose portfolio
    server has no account snapshot yet, a signal of exits only is published
    in full.  If an entry follows the exits, the handler raises
    AttributeError when it reaches the entry: the exits before it are already
    published, the entry and everything after it are not. *)
Theorem exits_need_no_account self timestamp exits costs :
  Portfolio.account (portfolio_server self) = None →
  Forall (λ trade, action trade ∈ [Orders.SELL; Orders.COVER]) exits →
  Forall2 (λ trade c, order_cost self trade = Ok c) exits costs →
  (∀ trade event, trade ∈ exits → created_for timestamp self trade event →
                  OrderEvent_post_init event = Ok tt) →
  ∃ events,
    Forall2 (created_for timestamp self) exits events ∧
    _handle_signal timestamp exits self = (Ok tt, publish events self) ∧
    (∀ entry post costs',
       action entry ∉ [Orders.SELL; Orders.COVER] →
       Forall2 (λ trade c, order_cost self trade = Ok c) (entry :: post) costs' →
       _handle_signal timestamp (exits ++ entry :: post) self
       = (Raise (AttributeError "account"), publish events self)).
Proof.
  intros Hacc Hexits Hcosts Hpost.
  assert (∀ total orders,
            Forall2 (collected timestamp self) exits orders →
            Forall (λ d, ∀ self', portfolio_server self' = portfolio_server self →
                                  admits Price self' total d = Ok true) orders)
    as Hadmitted.
  { intros total orders Hall. apply Forall_forall. intros d Hd self' _.
    apply admits_exit. apply list_elem_of_lookup in Hd as [i Hi].
    destruct (Forall2_lookup_r _ _ _ _ _ Hall Hi) as (trade & Htrade & _ & ->).
    apply (proj1 (Forall_forall _ _) Hexits). by eapply list_elem_of_lookup_2. }
  destruct (collect_orders_Ok to_order order_book_retrieve self timestamp exits costs
              [] 0 Hcosts) as (orders & Hcollect & Hall).
  destruct (dispatch_all timestamp self (0 + sum_costs costs) exits orders
              (Hadmitted _ _ Hall) Hpost Hall self eq_refl) as (events & Hevents & Hrun).
  exists events. split_and!; [done | |].
  - unfold OrderManager._handle_signal. by rewrite Hcollect.
  - intros entry post costs' Hentry Hcosts'.
    assert (Forall2 (λ trade c, order_cost self trade = Ok c)
                    (exits ++ entry :: post) (costs ++ costs')) as Hboth
      by (by apply Forall2_app).
    destruct (collect_orders_Ok to_order order_book_retrieve self timestamp
                (exits ++ entry :: post) (costs ++ costs') [] 0 Hboth)
      as (orders' & Hcollect' & Hall').
    apply Forall2_app_inv_l in Hall' as (o1 & o2 & Ho1 & Ho2 & ->).
    apply Forall2_cons_inv_l in Ho2 as (d & o2' & [_ Hact] & _ & ->).
    destruct (dispatch_all timestamp self (0 + sum_costs (costs ++ costs')) exits o1
                (Hadmitted _ _ Ho1) Hpost Ho1 self eq_refl)
      as (events' & Hevents' & Hrun').
    assert (events' = events) as ->.
    { clear -Hevents Hevents'. revert events' Hevents'.
      induction Hevents as [|trade ev trades events Hev _ IH];
        intros events' Hevents'; inversion Hevents' as [|? ev' ? events'' Hev' Hrest];
        subst; [done|].
      f_equal; [|by apply IH].
      destruct Hev as (s1 & o1 & Hs1 & Ho1 & ->), Hev' as (s2 & o2 & Hs2 & Ho2 & ->).
      congruence. }
    unfold OrderManager._handle_signal. rewrite Hcollect'. simpl.
    rewrite for_each_app, Hrun'. simpl.
    rewrite dispatch_entry_without_account; [done | by rewrite Hact | done].
Qed.

Lemma dispatch_order_rejected self total d x :
  admits Price self total d = Ok true →
  OrderEvent_post_init (event_of d) = Raise x →
  ∃ msg, dispatch_order total d self = Raise (RuntimeError msg).
Proof.
  intros Hadm Hpost. unfold OrderManager.dispatch_order. rewrite Hadm. cbn.
  unfold _set_order, event_of in *. rewrite Hpost. destruct x; by eexists.
Qed.

(** X18.  When the validation of an admitted instruction's OrderEvent fails,
    the handler raises a RuntimeError there: the admitted instructions before
    it are published, the failing one and all after it are not. *)
Theorem event_failure_stops_dispatch self timestamp pre bad post costs capital x :
  Forall2 (λ trade c, order_cost self trade = Ok c) (pre ++ bad :: post) costs →
  Portfolio.capital (portfolio_server self) = Ok capital →
  (∀ trade event, trade ∈ pre → created_for timestamp self trade event →
                  OrderEvent_post_init event = Ok tt) →
  admitted (sum_costs costs) capital bad →
  (∀ event, created_for timestamp self bad event →
            OrderEvent_post_init event = Raise x) →
  ∃ events msg,
    Forall2 (created_for timestamp self) (filter (admitted (sum_costs costs) capital) pre)
            events ∧
    _handle_signal timestamp (pre ++ bad :: post) self
    = (Raise (RuntimeError msg), publish events self).
Proof.
  intros Hcosts Hcap Hpost Hadm Hbad.
  destruct (collect_orders_Ok to_order order_book_retrieve self timestamp _ costs
              [] 0 Hcosts) as (orders & Hcollect & Hall).
  apply Forall2_app_inv_l in Hall as (o1 & o2 & Ho1 & Ho2 & ->).
  apply Forall2_cons_inv_l in Ho2 as (d & o2' & [Hev Hact] & _ & ->).
  destruct (dispatch_orders_Ok to_order order_book_retrieve OrderEvent_post_init
              timestamp self (0 + sum_costs costs) capital pre o1 Hcap Hpost Ho1
              self eq_refl) as (events & Hevents & Hrun).
  assert (∃ msg, dispatch_order (0 + sum_costs costs) d (publish events self)
                 = Raise (RuntimeError msg)) as [msg Hmsg].
  { apply (dispatch_order_rejected _ _ _ x); [|by apply Hbad].
    rewrite (admits_eq order_book_retrieve (publish events self) _ capital d Hcap).
    rewrite Hact. fold (admitted (0 + sum_costs costs) capital bad).
    by rewrite bool_decide_eq_true_2 by (by rewrite Z.add_0_l). }
  exists events, msg. split; [by rewrite Z.add_0_l in Hevents|].
  unfold OrderManager._handle_signal. rewrite Hcollect. simpl.
  rewrite for_each_app, Hrun. simpl. by rewrite Hmsg.
Qed.

(** Whatever it returns, the second loop publishes events of a subsequence of
    the orders, in order. *)
Lemma dispatch_publishes_sublist timestamp total trades orders :
  Forall2 (λ trade d, carries timestamp trade (event_of d)) trades orders →
  ∀ self,
    ∃ chosen events,
      chosen `sublist_of` trades ∧
      Forall2 (carries timestamp) chosen events ∧
      (for_each (dispatch_order total) orders self).2 = publish events self.
Proof.
  induction 1 as [|trade d trades orders Hd _ IH]; intros self.
  - exists [], []. split_and!; [done | constructor | by rewrite publish_nil].
  - simpl. unfold OrderManager.dispatch_order at 1.
    destruct (admits Price self total d) as [[]|x]; cbn.
    + unfold _set_order.
      change {| order_timestamp := details_timestamp d;
                order_trade_id := details_trade_id d;
                order_leg_id := details_leg_id d;
                order_action := details_action d;
                order_contract := details_contract d;
                order_order := details_order d |} with (event_of d).
      destruct (OrderEvent_post_init (event_of d)) as [[]|[]]; cbn;
        try (exists [], []; split_and!;
             [apply sublist_nil_l | constructor | by rewrite publish_nil]).
      destruct (IH (notify Price ORDER_CREATED (event_of d) self))
        as (chosen & events & Hsub & Hcar & ->).
      exists (trade :: chosen), (event_of d :: events).
      split_and!; [by apply sublist_skip | by constructor |].
      simpl. by rewrite <- app_assoc.
    + destruct (IH self) as (chosen & events & Hsub & Hcar & ->).
      exists chosen, events. split_and!; [by apply sublist_cons | done | done].
    + exists [], []. split_and!;
        [apply sublist_nil_l | constructor | by rewrite publish_nil].
Qed.

Lemma collect_orders_carry self timestamp trades orders0 total0 orders total :
  fold_result (collect_order self timestamp) trades (orders0, total0)
  = Ok (orders, total) →
  ∃ new, orders = orders0 ++ new ∧
         Forall2 (λ trade d, carries timestamp trade (event_of d)) trades new.
Proof.
  revert orders0 total0. induction trades as [|trade trades IH]; intros orders0 total0.
  - intros [= <- <-]. exists []. split; [by rewrite app_nil_r | constructor].
  - simpl. intros H. apply bind_Ok_inv in H as ([orders1 total1] & Hstep & H).
    apply IH in H as (new & -> & Hnew).
    unfold OrderManager.collect_order in Hstep.
    destruct (symbols_map self !! instrument trade) as [symbol|]; [|discriminate].
    apply bind_Ok_inv in Hstep as (order & _ & Hstep).
    apply bind_Ok_inv in Hstep as (price & _ & Hstep).
    apply bind_Ok_inv in Hstep as (c & _ & [= <- <-]). simpl.
    eexists (_ :: new). split; [by rewrite <- app_assoc|]. by constructor.
Qed.

(** X19.  What the handler never does.  Whatever the event and whatever the
    outcome, an exception included, [handle_event] leaves the portfolio server
    and the symbols map as they were and only appends ORDER_CREATED
    notifications.  For a signal, the appended events belong to a subsequence
    of the signal's instructions, in the order of the instructions, at most
    one event per instruction, each with the signal's timestamp and the
    instruction's trade id, leg id and action.  For any other event type, or
    a payload that is not a signal, nothing is appended. *)
Theorem handle_event_frame event_type event self :
  let run := handle_event event_type event self in
  portfolio_server run.2 = portfolio_server self ∧
  symbols_map run.2 = symbols_map self ∧
  ∃ events,
    notified run.2 = notified self ++ (pair ORDER_CREATED <$> events) ∧
    (∀ signal, event = EvSignal signal →
       ∃ chosen, chosen `sublist_of` instructions signal ∧
                 Forall2 (carries (signal_timestamp signal)) chosen events) ∧
    (event_type ≠ SIGNAL ∨ (∀ signal, event ≠ EvSignal signal) → events = []).
Proof.
  assert (∀ r : result unit, (r, self).2 = publish [] self) as Hnothing
    by (intros r; by rewrite publish_nil).
  assert (∃ chosen events,
            (handle_event event_type event self).2 = publish events self ∧
            (∀ signal, event = EvSignal signal →
               chosen `sublist_of` instructions signal ∧
               Forall2 (carries (signal_timestamp signal)) chosen events) ∧
            (event_type ≠ SIGNAL ∨ (∀ signal, event ≠ EvSignal signal) → events = []))
    as (chosen & events & Hrun & Hsignal & Hother).
  { unfold OrderManager.handle_event. case_bool_decide as Htype.
    - destruct event as [e | signal | e | e];
        try (exists [], []; split_and!;
             [apply Hnothing | by intros ? [=] | done]).
      destruct (Portfolio.get_active_order_tickers (portfolio_server self))
        as [tickers|x].
      + destruct (existsb _ (instructions signal)).
        * exists [], []. split_and!; [apply Hnothing | | done].
          intros ? [= <-]. split; [apply sublist_nil_l | constructor].
        * unfold OrderManager._handle_signal.
          destruct (fold_result _ (instructions signal) ([], 0))
            as [[orders total]|x] eqn:Hcollect.
          -- apply collect_orders_carry in Hcollect as (new & -> & Hnew).
             destruct (dispatch_publishes_sublist _ total _ _ Hnew self)
               as (chosen & events & Hsub & Hcar & Hrun).
             exists chosen, events. split_and!; [done | by intros ? [= <-] |].
             intros [? | Hnot]; [done | by destruct (Hnot signal)].
          -- exists [], []. split_and!; [apply Hnothing | | done].
             intros ? [= <-]. split; [apply sublist_nil_l | constructor].
      + exists [], []. split_and!; [apply Hnothing | | done].
        intros ? [= <-]. split; [apply sublist_nil_l | constructor].
    - exists [], []. split_and!; [apply Hnothing | | done].
      intros signal ->. split; [apply sublist_nil_l | constructor]. }
  simpl. rewrite Hrun. simpl. split_and!; [done | done |].
  exists events. split_and!; [done | | done].
  intros signal Hsig. exists chosen. by apply Hsignal.
Qed.

End OrderManagerMore.

Section OrderManagerMoreScenario.

Import Events OrderManager.


Lemma exits_need_no_account_witness :
  ∃ events,
    OrderManager._handle_signal Z Scenario.to_order Scenario.order_book_retrieve
      Scenario.OrderEvent_post_init 5 [Scenario.market Orders.SELL "MSFT" 2 60]
      Cases.unfunded_manager
    = (Ok tt, {| portfolio_server := portfolio_server Cases.unfunded_manager;
                 symbols_map := symbols_map Cases.unfunded_manager;
                 notified := notified Cases.unfunded_manager
                             ++ (pair ORDER_CREATED <$> events) |}) ∧
    OrderManager._handle_signal Z Scenario.to_order Scenario.order_book_retrieve
      Scenario.OrderEvent_post_init 5
      ([Scenario.market Orders.SELL "MSFT" 2 60]
         ++ Scenario.market Orders.LONG "AAPL" 1 60 :: [])
      Cases.unfunded_manager
    = (Raise (AttributeError "account"),
       {| portfolio_server := portfolio_server Cases.unfunded_manager;
          symbols_map := symbols_map Cases.unfunded_manager;
          notified := notified Cases.unfunded_manager
                      ++ (pair ORDER_CREATED <$> events) |}).
Proof.
  destruct (exits_need_no_account Scenario.to_order Scenario.order_book_retrieve
              Scenario.OrderEvent_post_init Cases.unfunded_manager 5
              [Scenario.market Orders.SELL "MSFT" 2 60] [60])
    as (events & _ & Hexits & Hentry).
  - reflexivity.
  - repeat constructor.
  - repeat constructor.
  - intros trade event _ _. reflexivity.
  - exists events. split; [exact Hexits|].
    apply (Hentry (Scenario.market Orders.LONG "AAPL" 1 60) [] [60]).
    + intros Hin. repeat (apply elem_of_cons in Hin as [Heq | Hin]; [discriminate|]).
      by apply elem_of_nil in Hin.
    + repeat constructor.
Defined.

Lemma event_failure_stops_dispatch_witness :
  ∃ events msg,
    Forall2 (created_for Z Scenario.to_order 5 Scenario.manager)
            (filter (admitted (sum_costs [10; 20; 5]) 100)
                    [Scenario.market Orders.SELL "MSFT" 1 10]) events ∧
    OrderManager._handle_signal Z Scenario.to_order Scenario.order_book_retrieve
      Cases.reject_leg_2 5
      ([Scenario.market Orders.SELL "MSFT" 1 10]
         ++ Scenario.market Orders.LONG "AAPL" 2 20
         :: [Scenario.market Orders.LONG "AAPL" 3 5])
      Scenario.manager
    = (Raise (RuntimeError msg),
       {| portfolio_server := portfolio_server Scenario.manager;
          symbols_map := symbols_map Scenario.manager;
          notified := notified Scenario.manager ++ (pair ORDER_CREATED <$> events) |}).
Proof.
  apply (event_failure_stops_dispatch Scenario.to_order Scenario.order_book_retrieve
           Cases.reject_leg_2 Scenario.manager 5
           [Scenario.market Orders.SELL "MSFT" 1 10]
           (Scenario.market Orders.LONG "AAPL" 2 20)
           [Scenario.market Orders.LONG "AAPL" 3 5] [10; 20; 5] 100
           (ValueError "leg")).
  - repeat constructor.
  - reflexivity.
  - intros trade event Hin (symbol & order & _ & _ & ->).
    apply list_elem_of_singleton in Hin as ->. reflexivity.
  - right. vm_compute. discriminate.
  - intros event (symbol & order & _ & _ & ->). reflexivity.
Defined.

Lemma handle_event_frame_witness :
  ∃ events chosen,
    notified (Scenario.handle_event SIGNAL (EvSignal Scenario.long_and_sell)
                Scenario.manager).2
    = notified Scenario.manager ++ (pair ORDER_CREATED <$> events) ∧
    chosen `sublist_of` instructions Scenario.long_and_sell ∧
    Forall2 (Cases.carries 1651500000) chosen events.
Proof.
  destruct (handle_event_frame Scenario.to_order Scenario.order_book_retrieve
              Scenario.OrderEvent_post_init SIGNAL (EvSignal Scenario.long_and_sell)
              Scenario.manager) as (_ & _ & events & Hnotified & Hsignal & _).
  destruct (Hsignal Scenario.long_and_sell eq_refl) as (chosen & Hsub & Hcarries).
  exists events, chosen. split_and!; [exact Hnotified | exact Hsub | exact Hcarries].
Defined.

End OrderManagerMoreScenario.

(** ** Market data clock: data preparation, batches, delivery *)

Section DataFacts.

Import Events DataClient Cases.

Implicit Types (t d : Z) (data response : list Row).

#[local] Existing Instance timestamp_le_trans.
#[local] Existing Instance timestamp_le_total.


Lemma unique_from_increasing seen (l : list Z) :
  StronglySorted Z.le l → StronglySorted Z.lt (unique_from seen l).
Proof.
  intros Hsorted. revert seen.
  induction Hsorted as [|y l _ IH Hall]; intros seen; simpl; [constructor|].
  case_bool_decide; [apply IH|]. constructor; [apply IH|].
  apply Forall_forall. intros x [Hx Hseen]%(unique_from_elem utc_day).
  apply not_elem_of_cons in Hseen as [Hne _].
  pose proof (proj1 (Forall_forall _ _) Hall x Hx). lia.
Qed.

Lemma to_uint64_range z : 0 ≤ to_uint64 z < 2 ^ 64.
Proof. unfold to_uint64. apply Z.mod_pos_bound. lia. Qed.

(** X21.  The timestamps the clock steps through are strictly increasing,
    hence without duplicates; they are exactly the timestamps of the rows
    handed over, reduced modulo 2^64, whatever the order and multiplicity of
    the rows; each lies in the range of an unsigned 64-bit integer; and there
    is none exactly when there is no row. *)
Theorem unique_timestamps_spec response :
  StronglySorted Z.lt (unique_timestamps (get_data response)) ∧
  (∀ t, t ∈ unique_timestamps (get_data response)
        ↔ ∃ r, r ∈ response ∧ t = to_uint64 (row_timestamp r)) ∧
  (∀ t, t ∈ unique_timestamps (get_data response) → 0 ≤ t < 2 ^ 64) ∧
  (unique_timestamps (get_data response) = [] ↔ response = []).
Proof.
  split_and!.
  - simpl. apply unique_from_increasing.
    apply (StronglySorted_fmap _ timestamp_le); [done|].
    apply StronglySorted_merge_sort; apply _.
  - apply (get_data_elem utc_day).
  - intros t (r & _ & ->)%(get_data_elem utc_day). apply to_uint64_range.
  - split.
    + intros Hnil. destruct response as [|r response]; [done|]. exfalso.
      assert (to_uint64 (row_timestamp r) ∈ unique_timestamps (get_data (r :: response)))
        as Hin by (apply (get_data_elem utc_day); exists r; split; [by left | done]).
      rewrite Hnil in Hin. by apply elem_of_nil in Hin.
    + by intros ->.
Qed.

Lemma unique_timestamps_spec_witness :
  86400000000000 ∈ unique_timestamps (get_data Scenario.two_day_rows) ∧
  0 ≤ 86400000000000 < 2 ^ 64.
Proof.
  destruct (unique_timestamps_spec Scenario.two_day_rows) as (_ & Helem & Hrange & _).
  assert (86400000000000 ∈ unique_timestamps (get_data Scenario.two_day_rows)) as Hin.
  { apply Helem. exists (mkRow 86400000000000 "AAPL" 101 103 100 102 5000).
    split; [by left | reflexivity]. }
  split; [exact Hin | exact (Hrange _ Hin)].
Defined.

(** The dict built by [_set_market_data], key by key. *)
Lemma fold_insert_lookup (rows : list Row) (m0 : gmap string BarData) (k : string) :
  fold_left (λ result_dict row, <[row_symbol row := bar_of_row row]> result_dict) rows m0
    !! k
  = match last (filter (λ row, row_symbol row = k) rows) with
    | Some row => Some (bar_of_row row)
    | None => m0 !! k
    end.
Proof.
  revert m0. induction rows as [|row rows IH]; intros m0; [done|].
  simpl. rewrite IH, filter_cons. case_decide as Hk.
  - rewrite last_cons. destruct (last (filter _ rows)); [done|].
    by rewrite <- Hk, lookup_insert_eq.
  - destruct (last (filter _ rows)); [done|]. by rewrite lookup_insert_ne.
Qed.

(** X22.  The batch for a timestamp holds, for each ticker, the bar of the
    last row of the data with that timestamp and that ticker, and nothing for
    a ticker without such a row.  So every bar of the batch carries its key as
    ticker and the batch's timestamp, and the batch is not empty when some row
    has the timestamp. *)
Theorem latest_batch_spec data t :
  (∀ k, latest_batch data t !! k
        = bar_of_row <$> last (filter (λ row, row_timestamp row = t ∧ row_symbol row = k)
                                      data)) ∧
  (∀ k bar, latest_batch data t !! k = Some bar →
            ticker bar = k ∧ bar_timestamp bar = t) ∧
  ((∃ row, row ∈ data ∧ row_timestamp row = t) → latest_batch data t ≠ ∅).
Proof.
  assert (∀ k, latest_batch data t !! k
               = bar_of_row <$> last (filter (λ row, row_timestamp row = t
                                                      ∧ row_symbol row = k) data))
    as Hlookup.
  { intros k. unfold latest_batch.
    change (λ result_dict row, <[row_symbol row := _]> result_dict)
      with (λ (result_dict : gmap string BarData) row,
              <[row_symbol row := bar_of_row row]> result_dict).
    rewrite fold_insert_lookup, lookup_empty, list_filter_filter.
    rewrite (list_filter_iff _ (λ row, row_timestamp row = t ∧ row_symbol row = k))
      by (intros row; tauto).
    by destruct (last _). }
  split_and!; [done | |].
  - intros k bar. rewrite Hlookup.
    destruct (last _) as [row|] eqn:Hlast; [|discriminate]. intros [= <-].
    apply last_Some_elem_of, list_elem_of_filter in Hlast as [[Ht Hk] _]. by simpl.
  - intros (row & Hin & Ht) Hempty.
    pose proof (Hlookup (row_symbol row)) as Hrow.
    rewrite Hempty, lookup_empty in Hrow.
    destruct (last _) as [row'|] eqn:Hlast; [discriminate|].
    apply last_None in Hlast.
    assert (row ∈ filter (λ row', row_timestamp row' = t
                                   ∧ row_symbol row' = row_symbol row) data) as Hf
      by (by apply list_elem_of_filter).
    rewrite Hlast in Hf. by apply elem_of_nil in Hf.
Qed.

Lemma latest_batch_spec_witness :
  latest_batch (data (client Scenario.loaded)) 0 ≠ ∅ ∧
  latest_batch (data (client Scenario.loaded)) 0 !! "MSFT"%string
  = Some (mkBarData "MSFT" 0 200 202 199 201 3000).
Proof.
  destruct (latest_batch_spec (data (client Scenario.loaded)) 0) as (Hlookup & _ & Hne).
  split.
  - apply Hne. exists (mkRow 0 "MSFT" 200 202 199 201 3000). split; [|reflexivity].
    apply (list_elem_of_lookup_2 _ 0%nat). reflexivity.
  - rewrite Hlookup. reflexivity.
Defined.

End DataFacts.

(** ** The data clock: runs of calls *)

Section DataClientMore.

Import Events DataClient Cases.

Variable day_of : Z → Z.

Abbreviation data_stream := (data_stream day_of).
Abbreviation stream := (stream day_of).
Abbreviation schedule_from := (schedule_from day_of).
Abbreviation timeline := (timeline day_of).
Abbreviation polling_for := (polling_for day_of).

Implicit Types (w : World) (env : Env) (waits : list Env) (t d : Z).
Implicit Types (data response : list Row) (h : list Effect).

Lemma published_timestamps_app h k :
  published_timestamps (h ++ k) = published_timestamps h ++ published_timestamps k.
Proof. unfold published_timestamps. apply omap_app. Qed.

Lemma eod_days_app h k : eod_days (h ++ k) = eod_days h ++ eod_days k.
Proof. unfold eod_days. apply omap_app. Qed.

Lemma published_timestamps_schedule data previous (l : list Z) :
  published_timestamps (schedule_from data previous l) = l.
Proof.
  revert previous. induction l as [|t l IH]; intros previous; [done|].
  simpl. rewrite published_timestamps_app.
  assert (published_timestamps
            match previous with
            | Some d0 =>
                if bool_decide (day_of t ≠ d0)
                then [PutEOD {| eod_timestamp := d0 |}] else []
            | None => []
            end = []) as ->.
  { destruct previous; [case_bool_decide|]; done. }
  unfold published_timestamps at 1. simpl. fold (published_timestamps).
  f_equal. apply IH.
Qed.

Lemma batches_of_schedule data previous (l : list Z) batch t :
  UpdateMarketData batch t ∈ schedule_from data previous l →
  batch = latest_batch data t ∧ t ∈ l.
Proof.
  revert previous. induction l as [|t' l IH]; intros previous; simpl.
  - by intros ?%elem_of_nil.
  - rewrite elem_of_app, elem_of_cons. intros [Hin | [Heq | Hin]].
    + destruct previous; [case_bool_decide|]; try (by apply elem_of_nil in Hin).
      by apply list_elem_of_singleton in Hin.
    + injection Heq as -> ->. split; [done | by left].
    + destruct (IH _ Hin) as [-> Hl]. split; [done | by right].
Qed.

(** X23.  Each distinct timestamp is delivered once, in ascending order.  In
    every run from a loaded clock the timestamps of the published batches,
    in publication order, are an initial segment of the clock's timestamps;
    they are all of them once a call has returned false.  Every published
    batch is the batch of its timestamp and is not empty. *)
Theorem batches_delivered_in_order queue response calls :
  let run := stream calls (init queue response) in
  published_timestamps (history run.2)
    `prefix_of` unique_timestamps (get_data response) ∧
  (false ∈ run.1 →
   published_timestamps (history run.2) = unique_timestamps (get_data response)) ∧
  (∀ batch t, UpdateMarketData batch t ∈ history run.2 →
              batch = latest_batch (data (get_data response)) t ∧ batch ≠ ∅).
Proof.
  simpl. destruct (stream_history day_of queue response calls) as [[k Hk] Hfalse].
  simpl in Hk, Hfalse.
  pose proof (published_timestamps_schedule (data (get_data response)) None
                (unique_timestamps (get_data response))) as Hall.
  fold (timeline (get_data response)) in Hall. split_and!.
  - exists (published_timestamps k). by rewrite <- published_timestamps_app, <- Hk.
  - intros Hin. by rewrite (Hfalse Hin).
  - intros batch t Hin.
    assert (UpdateMarketData batch t ∈ timeline (get_data response)) as Hin'
      by (rewrite Hk; apply elem_of_app; by left).
    apply batches_of_schedule in Hin' as [-> Ht]. split; [done|].
    apply latest_batch_spec.
    simpl in Ht. unfold unique in Ht.
    apply (unique_from_elem day_of) in Ht as [Ht _].
    apply list_elem_of_fmap in Ht as (row & -> & Hrow). by exists row.
Qed.

(** One call: what [poll] and [data_stream] add to the history. *)
Lemma poll_effects waits w t :
  next_date (client w) = Some t →
  match poll waits w with
  | Returned value w' _ =>
      value = true ∧
      ((history w' = history w ∧ client w' = client w) ∨
       (history w' = history w ++ [UpdateMarketData (latest_batch (data (client w)) t) t]
        ∧ current_date_index (client w') = S (current_date_index (client w))))
  | Waiting w' => history w' = history w ∧ client w' = client w
  end.
Proof.
  intros Hnext. revert w Hnext. induction waits as [|env waits IH]; intros w Hnext; simpl.
  - destruct (eod_event_flag (shared w)); [|done].
    split; [done|]. right. unfold _set_market_data. by rewrite Hnext.
  - destruct (eod_event_flag (shared w)).
    + split; [done|]. right. unfold _set_market_data. by rewrite Hnext.
    + destruct (event_queue (env (shared w))); [|split; [done | by left]].
      apply (IH (interfere env w) Hnext).
Qed.

(** X24.  One call of [data_stream] adds at most one EODEvent and at most
    one batch to the history, the EODEvent first; the batch is that of the
    timestamp at the cursor, and the cursor moves by one exactly when a batch
    is published.  A call that returns false adds nothing, and a call that is
    still polling has published no batch. *)
Theorem effects_of_one_call waits w :
  ∃ (eods : list EODEvent) (k : nat),
    let published :=
      take k (drop (current_date_index (client w)) (unique_timestamps (client w))) in
    (length eods ≤ 1)%nat ∧ (k ≤ 1)%nat ∧
    match data_stream waits w with
    | Returned value w' _ =>
        history w'
        = history w ++ (PutEOD <$> eods)
            ++ ((λ t, UpdateMarketData (latest_batch (data (client w)) t) t)
                  <$> published) ∧
        current_date_index (client w')
        = (current_date_index (client w) + length published)%nat ∧
        (value = false → eods = [] ∧ published = [])
    | Waiting w' =>
        history w' = history w ++ (PutEOD <$> eods) ∧
        current_date_index (client w') = current_date_index (client w)
    end.
Proof.
  unfold DataClient.data_stream. case_bool_decide as Hlen.
  { exists [], 0%nat. simpl. rewrite app_nil_r. split_and!; try done; lia. }
  destruct (unique_timestamps (client w) !! current_date_index (client w))
    as [t|] eqn:Ht; [|apply lookup_ge_None in Ht; lia].
  set (w1 := day_boundary (day_of t) (set_next_date t w)).
  assert (∃ eods, history w1 = history w ++ (PutEOD <$> eods) ∧ (length eods ≤ 1)%nat ∧
                  next_date (client w1) = Some t ∧
                  data (client w1) = data (client w) ∧
                  current_date_index (client w1) = current_date_index (client w))
    as (eods & Hh1 & Heods & Hnext & Hdata & Hidx).
  { unfold w1, day_boundary. simpl. destruct (current_day (client w)) as [d|].
    - destruct (decide (day_of t = d)) as [Heq | Hne].
      + rewrite bool_decide_eq_false_2 by (intros H; by apply H).
        exists []. simpl. rewrite app_nil_r. split_and!; try done; lia.
      + rewrite bool_decide_eq_true_2 by done.
        exists [{| eod_timestamp := d |}]. split_and!; try done; simpl; lia.
    - exists []. simpl. rewrite app_nil_r. split_and!; try done; lia. }
  pose proof (poll_effects waits w1 t Hnext) as Hpoll.
  destruct (poll waits w1) as [value w' rest | w'].
  - destruct Hpoll as [-> [[Hh Hc] | [Hh Hc]]].
    + exists eods, 0%nat. simpl. rewrite app_nil_r.
      split_and!; [done | lia | congruence | rewrite Hc, Hidx; lia | done].
    + exists eods, 1%nat. simpl. rewrite (drop_S _ _ _ Ht). simpl.
      split_and!; [done | lia | | rewrite Hc, Hidx; lia | done].
      by rewrite Hh, Hh1, Hdata, <- app_assoc.
  - destruct Hpoll as [Hh Hc]. exists eods, 0%nat. simpl.
    split_and!; [done | lia | congruence | by rewrite Hc, Hidx].
Qed.

(** X25.  With the flag clear and the queue empty, a clock that polls for a
    timestamp does not return while the other threads do nothing: however
    many waits elapse, the call is still polling, and nothing has changed. *)
Theorem call_blocks_while_nothing_happens (n : nat) w t :
  eod_event_flag (shared w) = false →
  event_queue (shared w) = [] →
  polling_for t w →
  poll (replicate n no_interference) w = Waiting w ∧
  data_stream (replicate n no_interference) w = Waiting w.
Proof.
  intros Hflag Hqueue (Ht & Hnext & Hday).
  assert (poll (replicate n no_interference) w = Waiting w) as Hpoll.
  { induction n as [|n IH]; simpl; rewrite Hflag; [done|].
    unfold no_interference at 1. rewrite Hqueue.
    assert (interfere no_interference w = w) as -> by (by destruct w as [? [] ?]).
    exact IH. }
  split; [done|]. unfold DataClient.data_stream.
  rewrite bool_decide_eq_false_2 by (apply lookup_lt_Some in Ht; lia).
  rewrite Ht. unfold day_boundary. simpl. rewrite Hday.
  rewrite bool_decide_eq_false_2 by (intros H; by apply H).
  assert (set_next_date t w = w) as ->; [|done].
  unfold set_next_date. rewrite <- Hnext. by destruct w as [[] ? ?].
Qed.

Section MonotoneMore.

Hypothesis day_of_mono : monotone_days day_of.

Lemma eod_of_schedule data (l : list Z) p e :
  StronglySorted Z.lt l →
  (∀ t, t ∈ l → p ≤ day_of t) →
  PutEOD e ∈ schedule_from data (Some p) l →
  p ≤ eod_timestamp e.
Proof.
  intros Hsorted. revert p. induction Hsorted as [|t l _ IH Hall]; intros p Hp; simpl.
  - by intros ?%elem_of_nil.
  - rewrite elem_of_app, elem_of_cons. intros [Hin | [Heq | Hin]].
    + case_bool_decide; [|by apply elem_of_nil in Hin].
      apply list_elem_of_singleton in Hin. injection Hin as ->. simpl. lia.
    + discriminate.
    + pose proof (Hp t ltac:(by left)).
      enough (day_of t ≤ eod_timestamp e) by lia.
      apply IH; [|done]. intros t' Ht'. apply day_of_mono.
      pose proof (proj1 (Forall_forall _ _) Hall t' Ht'). lia.
Qed.

Lemma schedule_sorted data previous (l : list Z) :
  StronglySorted Z.lt l →
  (∀ p t, previous = Some p → t ∈ l → p ≤ day_of t) →
  StronglySorted (happens_before day_of) (schedule_from data previous l).
Proof.
  intros Hsorted. revert previous.
  induction Hsorted as [|t l Hsorted IH Hall]; intros previous Hp; simpl; [constructor|].
  assert (∀ t', t' ∈ l → day_of t ≤ day_of t') as Hdays.
  { intros t' Ht'. apply day_of_mono.
    pose proof (proj1 (Forall_forall _ _) Hall t' Ht'). lia. }
  assert (StronglySorted (happens_before day_of)
            (UpdateMarketData (latest_batch data t) t
               :: schedule_from data (Some (day_of t)) l)) as Htail.
  { constructor.
    - apply IH. intros p t' [= <-]. apply Hdays.
    - apply Forall_forall. intros [e | batch t'] Hin; simpl.
      + by apply (eod_of_schedule data l).
      + apply batches_of_schedule in Hin as [_ Hin].
        apply (proj1 (Forall_forall _ _) Hall t' Hin). }
  destruct previous as [p|]; [|done]. case_bool_decide as Hne; [|done].
  pose proof (Hp p t eq_refl ltac:(by left)). simpl. constructor; [done|].
  apply Forall_cons. split; [simpl; lia|].
  apply Forall_forall. intros [e | batch t'] Hin; simpl.
  - apply (eod_of_schedule data l) in Hin; [lia | done | done].
  - apply batches_of_schedule in Hin as [_ Hin]. pose proof (Hdays t' Hin). lia.
Qed.

(** X26.  The order of the history over any number of days.  In every run
    from a loaded clock, batches are published by ascending timestamp and
    EODEvents by ascending day; around each EODEvent, every batch published
    before it is of its day or an earlier one, every batch published after
    it is of a later day, and no other EODEvent is for the same day. *)
Theorem history_is_ordered queue response calls :
  let h := history (stream calls (init queue response)).2 in
  StronglySorted (happens_before day_of) h ∧
  ∀ before e after,
    h = before ++ PutEOD e :: after →
    (∀ batch t, UpdateMarketData batch t ∈ before → day_of t ≤ eod_timestamp e) ∧
    (∀ batch t, UpdateMarketData batch t ∈ after → eod_timestamp e < day_of t) ∧
    (∀ e', PutEOD e' ∈ before ++ after → eod_timestamp e' ≠ eod_timestamp e).
Proof.
  simpl. set (h := history _).
  assert (StronglySorted (happens_before day_of) h) as Hsorted.
  { destruct (stream_history day_of queue response calls) as [[k Hk] _].
    simpl in Hk. fold h in Hk.
    assert (StronglySorted (happens_before day_of) (h ++ k)) as Hall.
    { rewrite <- Hk. apply schedule_sorted; [|done].
      apply (unique_timestamps_spec response). }
    clear Hk. induction h as [|x h IH]; [constructor|].
    simpl in Hall. apply StronglySorted_inv in Hall as [Hall Hx].
    constructor; [by apply IH|]. by apply Forall_app in Hx as [Hx _]. }
  split; [done|]. intros before e after Hh. rewrite Hh in Hsorted. clear Hh.
  assert (∀ x, x ∈ before → happens_before day_of x (PutEOD e)) as Hbefore.
  { intros x Hx. induction before as [|y before IH]; [by apply elem_of_nil in Hx|].
    simpl in Hsorted. apply StronglySorted_inv in Hsorted as [Hsorted Hy].
    apply elem_of_cons in Hx as [-> | Hx]; [|by apply IH].
    apply (proj1 (Forall_forall _ _) Hy). apply elem_of_app. right. by left. }
  assert (∀ x, x ∈ after → happens_before day_of (PutEOD e) x) as Hafter.
  { intros x Hx. induction before as [|y before IH].
    - simpl in Hsorted. apply StronglySorted_inv in Hsorted as [_ Hy].
      by apply (proj1 (Forall_forall _ _) Hy).
    - simpl in Hsorted. apply StronglySorted_inv in Hsorted as [Hsorted _].
      apply IH; [done|]. intros z Hz. apply Hbefore. by right. }
  split_and!.
  - intros batch t Hin. apply (Hbefore _ Hin).
  - intros batch t Hin. apply (Hafter _ Hin).
  - intros e' [Hin | Hin]%elem_of_app.
    + pose proof (Hbefore _ Hin) as Hlt. simpl in Hlt. lia.
    + pose proof (Hafter _ Hin) as Hlt. simpl in Hlt. lia.
Qed.

End MonotoneMore.

End DataClientMore.

Section DataClientMoreScenario.

Import Events DataClient Cases.

Lemma batches_delivered_in_order_witness :
  published_timestamps (history Scenario.finished) = [0; 86400000000000].
Proof.
  apply (proj1 (proj2 (batches_delivered_in_order utc_day [] Scenario.two_day_rows
                         Scenario.full_run))).
  vm_compute. do 3 right. by left.
Defined.

Lemma call_blocks_while_nothing_happens_witness :
  data_stream utc_day (replicate 5 no_interference) stalled = Waiting stalled.
Proof.
  apply (call_blocks_while_nothing_happens utc_day 5 stalled 86400000000000).
  - reflexivity.
  - reflexivity.
  - by vm_compute.
Defined.

Lemma history_is_ordered_witness :
  StronglySorted (happens_before utc_day) (history Scenario.finished) ∧
  (∀ batch t, UpdateMarketData batch t ∈ drop 2 (history Scenario.finished) →
              0 < utc_day t).
Proof.
  destruct (history_is_ordered utc_day utc_day_mono [] Scenario.two_day_rows
              Scenario.full_run) as [Hsorted Hsplit].
  split; [exact Hsorted|].
  destruct (Hsplit (take 1 (history Scenario.finished)) {| eod_timestamp := 0 |}
              (drop 2 (history Scenario.finished))) as (_ & Hafter & _).
  - by vm_compute.
  - exact Hafter.
Defined.

End DataClientMoreScenario.
